(** * Retail sales analysis: the ETL pipeline of [process_data.py]

    The program loads a CSV file into a SQLite table [raw_sales], derives
    [cleaned_sales] with one [CREATE TABLE ... AS SELECT], runs five
    aggregate queries over it and dumps them as one JSON document.

    The embedding follows the SQL text of the source column by column.
    SQLite's scalar functions and aggregates are written out as Rocq
    functions with the storage classes the queries meet:

    - NULL is [None];
    - INTEGER is a [Z] together with the 64-bit range checks SQLite performs
      ([ABS] and all-integer [SUM] raise "integer overflow", an overflowing
      integer product falls back to REAL);
    - REAL is an exact rational ([Q]): the rounding of IEEE doubles, their
      infinities and the NaN that SQLite turns into NULL are not modelled,
      and [ROUND] rounds half away from zero on the exact value; the
      statements proved below are those that do not depend on this (signs,
      NULLs of NULL inputs, counts, keys, orderings, failures), none is
      about the digits of a REAL result;
    - TEXT is a [string] of bytes, compared bytewise (BINARY collation),
      with the ASCII-only case folding of [LOWER] and [LIKE].

    The columns are typed as pandas would infer them from the source file of
    the specification: names, category and the two dates are text columns
    (TEXT or NULL), quantity and price are numeric columns (INTEGER, REAL or
    NULL), the remaining columns are passed through and may hold anything. *)

From Stdlib Require Import ZArith QArith Qround Qabs List String Ascii Bool Lia
  Lqa Sorted Permutation OrderedTypeEx.
Import ListNotations.

Local Open Scope Z_scope.

(** ** Errors and the result type *)

Inductive error : Type :=
| IntegerOverflow            (* sqlite3.OperationalError: integer overflow *)
| NoSuchTable (name : string) (* sqlite3.OperationalError: no such table *)
| TypeError                  (* float(None) *)
| IndexError.                (* .iloc[0] on an empty frame *)

Inductive result (A : Type) : Type :=
| Ok (a : A)
| Err (e : error).
Arguments Ok {A} a.
Arguments Err {A} e.

Definition bind {A B : Type} (r : result A) (k : A -> result B) : result B :=
  match r with
  | Ok a => k a
  | Err e => Err e
  end.

Notation "x <- c1 ;; c2" := (bind c1 (fun x => c2))
  (at level 61, c1 at next level, right associativity).

Fixpoint mapM {A B : Type} (f : A -> result B) (l : list A) : result (list B) :=
  match l with
  | [] => Ok []
  | a :: l' => b <- f a ;; bs <- mapM f l' ;; Ok (b :: bs)
  end.

(** ** SQLite values and built-in functions *)

Module Sqlite.

(** A numeric value: storage class INTEGER or REAL. *)
Inductive num : Type :=
| NInt (i : Z)
| NReal (r : Q).

(** A cell of an untyped column. *)
Inductive value : Type :=
| VNull
| VNum (n : num)
| VText (s : string).

Definition to_Q (n : num) : Q :=
  match n with
  | NInt i => inject_Z i
  | NReal r => r
  end.

Definition SMALLEST_INT64 : Z := - 2 ^ 63.
Definition LARGEST_INT64 : Z := 2 ^ 63 - 1.

Definition fits_int64 (z : Z) : bool :=
  (SMALLEST_INT64 <=? z) && (z <=? LARGEST_INT64).

(** *** Three-valued logic: [None] is NULL. *)

Definition sql_or (a b : option bool) : option bool :=
  match a, b with
  | Some true, _ | _, Some true => Some true
  | Some false, Some false => Some false
  | _, _ => None
  end.

(** A [WHEN] branch is taken only when its condition is true. *)
Definition when (c : option bool) : bool :=
  match c with
  | Some true => true
  | _ => false
  end.

Definition is_null {A : Type} (x : option A) : option bool :=
  match x with
  | None => Some true
  | Some _ => Some false
  end.

(** [x = 'literal'] on a text column: NULL when [x] is NULL. *)
Definition text_eq (x : option string) (lit : string) : option bool :=
  match x with
  | None => None
  | Some s => Some (String.eqb s lit)
  end.

(** *** Text functions *)

Definition is_upper (c : ascii) : bool :=
  let n := N_of_ascii c in ((65 <=? n) && (n <=? 90))%N.

(** [sqlite3Tolower]: only the bytes 'A'..'Z' are folded. *)
Definition sqlite3Tolower (c : ascii) : ascii :=
  if is_upper c then ascii_of_N (N_of_ascii c + 32) else c.

Fixpoint lower_string (s : string) : string :=
  match s with
  | EmptyString => EmptyString
  | String c s' => String (sqlite3Tolower c) (lower_string s')
  end.

Definition LOWER (x : option string) : option string :=
  option_map lower_string x.

Definition space : ascii := " "%char.

Fixpoint ltrim (s : string) : string :=
  match s with
  | EmptyString => EmptyString
  | String c s' => if Ascii.eqb c space then ltrim s' else s
  end.

Fixpoint rtrim (s : string) : string :=
  match s with
  | EmptyString => EmptyString
  | String c s' =>
      match rtrim s' with
      | EmptyString => if Ascii.eqb c space then EmptyString else String c EmptyString
      | t => String c t
      end
  end.

(** [TRIM(X)] removes spaces (and only spaces) from both ends. *)
Definition TRIM (x : option string) : option string :=
  option_map (fun s => rtrim (ltrim s)) x.

(** After the first byte [c] of a character, the rest of a multi-byte UTF-8
    character: continuation bytes are skipped when [c >= 0xC0]. *)
Fixpoint skip_continuation (s : string) : string :=
  match s with
  | String c s' =>
      if (N.land (N_of_ascii c) 192 =? 128)%N then skip_continuation s' else s
  | EmptyString => EmptyString
  end.

Definition skip_utf8 (c : ascii) (rest : string) : string :=
  if (192 <=? N_of_ascii c)%N then skip_continuation rest else rest.

(** [f] holds of the text or of one of its suffixes. *)
Fixpoint any_suffix (f : string -> bool) (t : string) : bool :=
  f t ||
  match t with
  | EmptyString => false
  | String _ t' => any_suffix f t'
  end.

(** [patternCompare] with the LIKE wildcards: '%' matches any sequence,
    '_' one character, any other byte matches itself up to ASCII case
    (the default, [case_sensitive_like] off). *)
Fixpoint like_match (p s : string) {struct p} : bool :=
  match p with
  | EmptyString =>
      match s with
      | EmptyString => true
      | _ => false
      end
  | String c p' =>
      if Ascii.eqb c "%" then any_suffix (like_match p') s
      else if Ascii.eqb c "_" then
        match s with
        | EmptyString => false
        | String d s' => like_match p' (skip_utf8 d s')
        end
      else
        match s with
        | EmptyString => false
        | String d s' =>
            Ascii.eqb (sqlite3Tolower c) (sqlite3Tolower d) && like_match p' s'
        end
  end.

(** [x LIKE pattern] on a text column. *)
Definition LIKE (x : option string) (pattern : string) : option bool :=
  match x with
  | None => None
  | Some s => Some (like_match pattern s)
  end.

(** *** Arithmetic *)

(** [absFunc]: the smallest 64-bit integer has no absolute value. *)
Definition ABS (x : option num) : result (option num) :=
  match x with
  | None => Ok None
  | Some (NInt i) =>
      if i <? 0 then
        if i =? SMALLEST_INT64 then Err IntegerOverflow
        else Ok (Some (NInt (- i)))
      else Ok (Some (NInt i))
  | Some (NReal r) => Ok (Some (NReal (if Qle_bool 0 r then r else - r)%Q))
  end.

(** [OP_Multiply]: integer arithmetic when both operands are integers and
    the product fits, floating point otherwise. *)
Definition mul (x y : option num) : option num :=
  match x, y with
  | Some (NInt a), Some (NInt b) =>
      if fits_int64 (a * b) then Some (NInt (a * b))
      else Some (NReal (inject_Z a * inject_Z b))
  | Some a, Some b => Some (NReal (to_Q a * to_Q b))
  | _, _ => None
  end.

(** Rounding of an exact value to the nearest integer, half away from
    zero. *)
Definition round_half_away (q : Q) : Z :=
  if Qle_bool 0 q then Qfloor (q + (1 # 2)) else - Qfloor (- q + (1 # 2)).

(** [ROUND(X, Y)]: a REAL with [Y] decimal digits, NULL for NULL.  The
    rounding is done on the exact value; SQLite rounds the decimal
    expansion of the double and leaves values beyond 2^52 as they are. *)
Definition ROUND (x : option num) (digits : nat) : option num :=
  match x with
  | None => None
  | Some n =>
      let scale := Pos.pow 10 (Pos.of_nat digits) in
      match digits with
      | O => Some (NReal (inject_Z (round_half_away (to_Q n))))
      | S _ =>
          Some (NReal (Qmake (round_half_away (to_Q n * inject_Z (Zpos scale))) scale))
      end
  end.

(** *** Comparison: NULL sorts first, then numbers, then text. *)

Definition num_compare (a b : num) : comparison := Qcompare (to_Q a) (to_Q b).

Definition option_compare {A : Type} (cmp : A -> A -> comparison)
  (x y : option A) : comparison :=
  match x, y with
  | None, None => Eq
  | None, Some _ => Lt
  | Some _, None => Gt
  | Some a, Some b => cmp a b
  end.

Definition value_compare (x y : value) : comparison :=
  match x, y with
  | VNull, VNull => Eq
  | VNull, _ => Lt
  | _, VNull => Gt
  | VNum a, VNum b => num_compare a b
  | VNum _, VText _ => Lt
  | VText _, VNum _ => Gt
  | VText s, VText t => String.compare s t
  end.

(** *** Aggregates *)

(** The accumulator of [sum()] and [avg()] ([SumCtx]), as in SQLite 3.43
    and later.  Earlier versions differ only on a column that mixes
    INTEGER and REAL, which a column read from a CSV file never does. *)
Record SumCtx : Type := mkSum {
  rSum : Q;       (* running floating-point sum *)
  iSum : Z;       (* running integer sum, while exact *)
  cnt : Z;        (* number of non-NULL inputs *)
  approx : bool;  (* a REAL was seen or the integer sum overflowed *)
  ovrfl : bool    (* the integer sum overflowed *)
}.

Definition sum_init : SumCtx :=
  {| rSum := 0; iSum := 0; cnt := 0; approx := false; ovrfl := false |}.

Definition sumStep (p : SumCtx) (x : option num) : SumCtx :=
  match x with
  | None => p
  | Some n =>
      if approx p then
        match n with
        | NInt i =>
            {| rSum := rSum p + inject_Z i; iSum := iSum p; cnt := cnt p + 1;
               approx := true; ovrfl := ovrfl p |}
        | NReal r =>
            {| rSum := rSum p + r; iSum := iSum p; cnt := cnt p + 1;
               approx := true; ovrfl := false |}
        end
      else
        match n with
        | NInt i =>
            if fits_int64 (iSum p + i) then
              {| rSum := rSum p; iSum := iSum p + i; cnt := cnt p + 1;
                 approx := false; ovrfl := false |}
            else
              {| rSum := inject_Z (iSum p) + inject_Z i; iSum := iSum p;
                 cnt := cnt p + 1; approx := true; ovrfl := true |}
        | NReal r =>
            {| rSum := inject_Z (iSum p) + r; iSum := iSum p; cnt := cnt p + 1;
               approx := true; ovrfl := ovrfl p |}
        end
  end.

Definition sumFinalize (p : SumCtx) : result (option num) :=
  if 0 <? cnt p then
    if approx p then
      if ovrfl p then Err IntegerOverflow else Ok (Some (NReal (rSum p)))
    else Ok (Some (NInt (iSum p)))
  else Ok None.

Definition avgFinalize (p : SumCtx) : option num :=
  match cnt p with
  | Zpos n =>
      let r := if approx p then rSum p else inject_Z (iSum p) in
      Some (NReal (r / inject_Z (Zpos n)))
  | _ => None
  end.

Definition SUM (column : list (option num)) : result (option num) :=
  sumFinalize (fold_left sumStep column sum_init).

Definition AVG (column : list (option num)) : option num :=
  avgFinalize (fold_left sumStep column sum_init).

(** [COUNT( * )] *)
Definition COUNT {A : Type} (rows : list A) : Z := Z.of_nat (List.length rows).

Definition same_value (x y : value) : bool :=
  match value_compare x y with
  | Eq => true
  | _ => false
  end.

(** The distinct values of a column, NULLs left out. *)
Definition distinct_step (seen : list value) (x : value) : list value :=
  match x with
  | VNull => seen
  | _ => if existsb (same_value x) seen then seen else seen ++ [x]
  end.

(** [COUNT(DISTINCT x)] *)
Definition COUNT_DISTINCT (column : list value) : Z :=
  Z.of_nat (List.length (fold_left distinct_step column [])).

(** *** GROUP BY, ORDER BY, LIMIT *)

Section Grouping.
Context {R K : Type}.
Variable key : R -> K.
Variable cmp : K -> K -> comparison.

(** The groups are kept in ascending key order, the rows of a group in
    table order. *)
Fixpoint add_to_group (r : R) (groups : list (K * list R)) : list (K * list R) :=
  match groups with
  | [] => [(key r, [r])]
  | (k, rows) :: rest =>
      match cmp (key r) k with
      | Eq => (k, rows ++ [r]) :: rest
      | Lt => (key r, [r]) :: groups
      | Gt => (k, rows) :: add_to_group r rest
      end
  end.

Definition group_by (table : list R) : list (K * list R) :=
  fold_left (fun groups r => add_to_group r groups) table [].
End Grouping.

Section Ordering.
Context {R : Type}.
(** [precedes a b]: [a] may come before [b] in the output. *)
Variable precedes : R -> R -> bool.

Fixpoint insert_row (r : R) (sorted : list R) : list R :=
  match sorted with
  | [] => [r]
  | r' :: rest =>
      if precedes r r' then r :: sorted else r' :: insert_row r rest
  end.

(** Rows with equal sort keys stay in the order they arrive in (SQL
    leaves their order open). *)
Definition order_by (rows : list R) : list R :=
  fold_right insert_row [] rows.
End Ordering.

(** [ORDER BY x DESC]: NULLs last. *)
Definition descending {R A : Type} (cmp : A -> A -> comparison) (col : R -> A)
  (a b : R) : bool :=
  match cmp (col a) (col b) with
  | Lt => false
  | _ => true
  end.

(** [ORDER BY x]: NULLs first. *)
Definition ascending {R A : Type} (cmp : A -> A -> comparison) (col : R -> A)
  (a b : R) : bool :=
  match cmp (col a) (col b) with
  | Gt => false
  | _ => true
  end.

Definition LIMIT {R : Type} (n : nat) (rows : list R) : list R := firstn n rows.

End Sqlite.
Import Sqlite.

(** ** The tables *)

(** A row of [raw_sales], as [df.to_sql] stored it. *)
Module Raw.
Record row : Type := mk {
  order_id : value;
  customer_id : value;
  customer_name : option string;
  product_name : option string;
  category : option string;
  quantity : option num;
  price : option num;
  order_date : option string;
  ship_date : option string;
  region : value;
  payment_method : value
}.
End Raw.

(** A row of [cleaned_sales]: the columns of the SELECT list, in order. *)
Module Cleaned.
Record row : Type := mk {
  order_id : value;
  customer_id : value;
  customer_name : option string;
  product_name : option string;
  category : option string;
  quantity : option num;
  price : option num;
  order_date : option string;
  ship_date : option string;
  region : value;
  payment_method : value;
  total_amount : option num
}.
End Cleaned.

(** The rows of the five result frames. *)
Module Category.
Record row : Type := mk {
  category : option string;
  total_orders : Z;
  total_units_sold : option num;
  total_revenue : option num;
  avg_order_value : option num
}.
End Category.

Module Regional.
Record row : Type := mk {
  region : value;
  total_orders : Z;
  total_revenue : option num;
  unique_customers : Z
}.
End Regional.

Module Daily.
Record row : Type := mk {
  order_date : option string;
  orders : Z;
  revenue : option num
}.
End Daily.

Module Product.
Record row : Type := mk {
  product_name : option string;
  category : option string;
  units_sold : option num;
  revenue : option num
}.
End Product.

Module Summary.
Record row : Type := mk {
  total_revenue : option num;
  total_orders : Z;
  total_customers : Z;
  avg_order_value : option num
}.
End Summary.

(** The dictionary returned by [generate_analytics]. *)
Record analytics : Type := mkAnalytics {
  category_df : list Category.row;
  regional_df : list Regional.row;
  daily_df : list Daily.row;
  product_df : list Product.row;
  summary : Summary.row
}.

(** The JSON document: the summary converted with [float] and [int], the
    frames as lists of records. *)
Module Json.
Record summary : Type := mkSummary {
  total_revenue : Q;
  total_orders : Z;
  total_customers : Z;
  avg_order_value : Q
}.
Record document : Type := mk {
  summary_ : summary;
  category : list Category.row;
  regional : list Regional.row;
  daily : list Daily.row;
  product : list Product.row
}.
End Json.

(** The files the program touches: the two tables of [sales_analysis.db]
    (a table is [None] until it is created) and [dashboard_data.json]. *)
Record world : Type := mkWorld {
  raw_sales : option (list Raw.row);
  cleaned_sales : option (list Cleaned.row);
  dashboard_data : option Json.document
}.

(** ** Steps of the script: a state and exception monad over [world].
    The files keep what was written before an exception. *)

Definition step (A : Type) : Type := world -> world * result A.

Definition ret {A : Type} (a : A) : step A := fun w => (w, Ok a).

Definition raise {A : Type} (e : error) : step A := fun w => (w, Err e).

Definition lift {A : Type} (r : result A) : step A := fun w => (w, r).

Definition seq {A B : Type} (c : step A) (k : A -> step B) : step B :=
  fun w =>
    match c w with
    | (w', Ok a) => k a w'
    | (w', Err e) => (w', Err e)
    end.

Notation "x <<- c1 ;; c2" := (seq c1 (fun x => c2))
  (at level 61, c1 at next level, right associativity).
Notation "c1 ;;; c2" := (seq c1 (fun _ => c2))
  (at level 61, right associativity).

(** ** [create_database]: [df.to_sql('raw_sales', conn, if_exists='replace')] *)

Definition create_database (df : list Raw.row) : step unit :=
  fun w => ({| raw_sales := Some df;
               cleaned_sales := cleaned_sales w;
               dashboard_data := dashboard_data w |}, Ok tt).

(** ** [clean_data]: the columns of [cleaning_sql] *)

Definition clean_customer_name (customer_name : option string) : option string :=
  if when (sql_or (text_eq customer_name "NULL") (is_null customer_name))
  then Some "Unknown Customer"%string
  else TRIM customer_name.

Definition clean_category (category : option string) : option string :=
  if when (text_eq (LOWER category) "electronics") then Some "Electronics"%string
  else if when (text_eq (LOWER category) "furniture") then Some "Furniture"%string
  else if when (text_eq (LOWER category) "stationery") then Some "Stationery"%string
  else if when (text_eq (LOWER category) "office") then Some "Office"%string
  else category.

Definition clean_order_date (order_date : option string) : option string :=
  if when (LIKE order_date "%invalid%") then None else order_date.

Definition clean_ship_date (ship_date : option string) : option string :=
  if when (sql_or (is_null ship_date) (text_eq ship_date "")) then None
  else ship_date.

(** [ROUND(ABS(quantity) * price, 2)] *)
Definition clean_total_amount (quantity price : option num) : result (option num) :=
  q <- ABS quantity ;; Ok (ROUND (mul q price) 2).

(** One row of the SELECT; it fails when [ABS(quantity)] does. *)
Definition clean_row (r : Raw.row) : result Cleaned.row :=
  quantity <- ABS (Raw.quantity r) ;;
  total_amount <- clean_total_amount (Raw.quantity r) (Raw.price r) ;;
  Ok {| Cleaned.order_id := Raw.order_id r;
        Cleaned.customer_id := Raw.customer_id r;
        Cleaned.customer_name := clean_customer_name (Raw.customer_name r);
        Cleaned.product_name := TRIM (Raw.product_name r);
        Cleaned.category := clean_category (Raw.category r);
        Cleaned.quantity := quantity;
        Cleaned.price := Raw.price r;
        Cleaned.order_date := clean_order_date (Raw.order_date r);
        Cleaned.ship_date := clean_ship_date (Raw.ship_date r);
        Cleaned.region := Raw.region r;
        Cleaned.payment_method := Raw.payment_method r;
        Cleaned.total_amount := total_amount |}.

(** [DROP TABLE IF EXISTS cleaned_sales] *)
Definition drop_cleaned_sales : step unit :=
  fun w => ({| raw_sales := raw_sales w;
               cleaned_sales := None;
               dashboard_data := dashboard_data w |}, Ok tt).

(** [CREATE TABLE IF NOT EXISTS cleaned_sales AS SELECT ... FROM raw_sales]:
    nothing happens when the table exists; a failing SELECT creates
    nothing. *)
Definition cleaning_sql : step unit :=
  fun w =>
    match cleaned_sales w with
    | Some _ => (w, Ok tt)
    | None =>
        match raw_sales w with
        | None => (w, Err (NoSuchTable "raw_sales"))
        | Some rows =>
            match mapM clean_row rows with
            | Ok cleaned =>
                ({| raw_sales := raw_sales w;
                    cleaned_sales := Some cleaned;
                    dashboard_data := dashboard_data w |}, Ok tt)
            | Err e => (w, Err e)
            end
        end
    end.

Definition clean_data : step unit :=
  drop_cleaned_sales ;;; cleaning_sql.

(** ** [generate_analytics]: the five queries *)

Definition text_compare : option string -> option string -> comparison :=
  option_compare String.compare.

Definition amount_compare : option num -> option num -> comparison :=
  option_compare num_compare.

(** Comparison of a two-column GROUP BY key, column by column. *)
Definition pair_compare (a b : option string * option string) : comparison :=
  match text_compare (fst a) (fst b) with
  | Eq => text_compare (snd a) (snd b)
  | c => c
  end.

(** Category performance: one output row per group. *)
Definition category_row (group : option string * list Cleaned.row)
  : result Category.row :=
  let rows := snd group in
  total_units_sold <- SUM (map Cleaned.quantity rows) ;;
  total_revenue <- SUM (map Cleaned.total_amount rows) ;;
  Ok {| Category.category := fst group;
        Category.total_orders := COUNT rows;
        Category.total_units_sold := total_units_sold;
        Category.total_revenue := ROUND total_revenue 2;
        Category.avg_order_value := ROUND (AVG (map Cleaned.total_amount rows)) 2 |}.

Definition category_query (table : list Cleaned.row) : result (list Category.row) :=
  rows <- mapM category_row (group_by Cleaned.category text_compare table) ;;
  Ok (order_by (descending amount_compare Category.total_revenue) rows).

(** Regional performance. *)
Definition regional_row (group : value * list Cleaned.row) : result Regional.row :=
  let rows := snd group in
  total_revenue <- SUM (map Cleaned.total_amount rows) ;;
  Ok {| Regional.region := fst group;
        Regional.total_orders := COUNT rows;
        Regional.total_revenue := ROUND total_revenue 2;
        Regional.unique_customers := COUNT_DISTINCT (map Cleaned.customer_id rows) |}.

Definition regional_query (table : list Cleaned.row) : result (list Regional.row) :=
  rows <- mapM regional_row (group_by Cleaned.region value_compare table) ;;
  Ok (order_by (descending amount_compare Regional.total_revenue) rows).

(** Daily sales: [WHERE order_date IS NOT NULL]. *)
Definition has_order_date (r : Cleaned.row) : bool :=
  match Cleaned.order_date r with
  | Some _ => true
  | None => false
  end.

Definition daily_row (group : option string * list Cleaned.row) : result Daily.row :=
  let rows := snd group in
  revenue <- SUM (map Cleaned.total_amount rows) ;;
  Ok {| Daily.order_date := fst group;
        Daily.orders := COUNT rows;
        Daily.revenue := ROUND revenue 2 |}.

Definition daily_query (table : list Cleaned.row) : result (list Daily.row) :=
  rows <- mapM daily_row
            (group_by Cleaned.order_date text_compare (filter has_order_date table)) ;;
  Ok (order_by (ascending text_compare Daily.order_date) rows).

(** Top products: [GROUP BY product_name, category ... LIMIT 10]. *)
Definition product_key (r : Cleaned.row) : option string * option string :=
  (Cleaned.product_name r, Cleaned.category r).

Definition product_row (group : (option string * option string) * list Cleaned.row)
  : result Product.row :=
  let rows := snd group in
  units_sold <- SUM (map Cleaned.quantity rows) ;;
  revenue <- SUM (map Cleaned.total_amount rows) ;;
  Ok {| Product.product_name := fst (fst group);
        Product.category := snd (fst group);
        Product.units_sold := units_sold;
        Product.revenue := ROUND revenue 2 |}.

Definition product_query (table : list Cleaned.row) : result (list Product.row) :=
  rows <- mapM product_row (group_by product_key pair_compare table) ;;
  Ok (LIMIT 10 (order_by (descending amount_compare Product.revenue) rows)).

(** Summary metrics: an aggregate without GROUP BY always returns one row. *)
Definition summary_query (table : list Cleaned.row) : result Summary.row :=
  total_revenue <- SUM (map Cleaned.total_amount table) ;;
  Ok {| Summary.total_revenue := ROUND total_revenue 2;
        Summary.total_orders := COUNT table;
        Summary.total_customers := COUNT_DISTINCT (map Cleaned.customer_id table);
        Summary.avg_order_value := ROUND (AVG (map Cleaned.total_amount table)) 2 |}.

(** [pd.read_sql_query(sql, conn)] over [cleaned_sales]. *)
Definition read_sql_query {A : Type} (query : list Cleaned.row -> result A) : step A :=
  fun w =>
    match cleaned_sales w with
    | None => (w, Err (NoSuchTable "cleaned_sales"))
    | Some table => (w, query table)
    end.

Definition generate_analytics : step analytics :=
  category_df <<- read_sql_query category_query ;;
  regional_df <<- read_sql_query regional_query ;;
  daily_df <<- read_sql_query daily_query ;;
  product_df <<- read_sql_query product_query ;;
  summary <<- read_sql_query summary_query ;;
  ret {| category_df := category_df;
         regional_df := regional_df;
         daily_df := daily_df;
         product_df := product_df;
         summary := summary |}.

(** ** [export_to_json] *)

(** [float(x)]: a NULL aggregate reaches Python as [None]. *)
Definition float (x : option num) : result Q :=
  match x with
  | Some n => Ok (to_Q n)
  | None => Err TypeError
  end.

(** The dictionary [data]; it is built before the file is opened. *)
Definition build_data (a : analytics) : result Json.document :=
  total_revenue <- float (Summary.total_revenue (summary a)) ;;
  avg_order_value <- float (Summary.avg_order_value (summary a)) ;;
  Ok {| Json.summary_ :=
          {| Json.total_revenue := total_revenue;
             Json.total_orders := Summary.total_orders (summary a);
             Json.total_customers := Summary.total_customers (summary a);
             Json.avg_order_value := avg_order_value |};
        Json.category := category_df a;
        Json.regional := regional_df a;
        Json.daily := daily_df a;
        Json.product := product_df a |}.

(** [json.dump(data, f)] on [dashboard_data.json], opened with mode 'w'. *)
Definition json_dump (data : Json.document) : step unit :=
  fun w => ({| raw_sales := raw_sales w;
               cleaned_sales := cleaned_sales w;
               dashboard_data := Some data |}, Ok tt).

Definition export_to_json (a : analytics) : step Json.document :=
  data <<- lift (build_data a) ;;
  json_dump data ;;;
  ret data.

(** ** The script ([__main__]) *)

(** [frame.iloc[0]] *)
Definition iloc0 {A : Type} (frame : list A) : result A :=
  match frame with
  | r :: _ => Ok r
  | [] => Err IndexError
  end.

Definition main (df : list Raw.row) : step unit :=
  create_database df ;;;
  clean_data ;;;
  analytics <<- generate_analytics ;;
  data <<- export_to_json analytics ;;
  top <<- lift (iloc0 (category_df analytics)) ;;
  ret tt.

(** ** The properties of the specification, in its own words *)

Module Spec.

(** Upper-casing of the ASCII letters, for comparisons that ignore case. *)
Definition is_lower (c : ascii) : bool :=
  let n := N_of_ascii c in ((97 <=? n) && (n <=? 122))%N.

Definition upper_char (c : ascii) : ascii :=
  if is_lower c then ascii_of_N (N_of_ascii c - 32) else c.

Fixpoint upper_string (s : string) : string :=
  match s with
  | EmptyString => EmptyString
  | String c s' => String (upper_char c) (upper_string s')
  end.

(** Two texts match case-insensitively. *)
Definition eq_ignore_case (s t : string) : bool :=
  String.eqb (upper_string s) (upper_string t).

(** [needle] occurs in [s], byte for byte (case-sensitive). *)
Definition contains (needle s : string) : bool :=
  any_suffix (String.prefix needle) s.

(** [needle] occurs in [s] up to the case of ASCII letters. *)
Definition contains_ignore_case (needle s : string) : bool :=
  contains (upper_string needle) (upper_string s).

(** The canonical category labels and the keys they are recognised by. *)
Definition canonical : list (string * string) :=
  [("electronics", "Electronics"); ("furniture", "Furniture");
   ("stationery", "Stationery"); ("office", "Office")]%string.

(** [round(x, 2)]: the nearest multiple of 1/100, halves away from zero. *)
Definition round2 (x : Q) : Q :=
  let cents := Qfloor (Qabs x * 100 + (1 # 2))%Q in
  if Qle_bool 0 x then Qmake cents 100 else Qmake (- cents) 100.

End Spec.

(** ** Auxiliary notions used by the statements below *)

(** A pattern byte that is not a LIKE wildcard. *)
Definition plain (c : ascii) : bool :=
  negb (Ascii.eqb c "%") && negb (Ascii.eqb c "_").

Fixpoint plain_string (p : string) : bool :=
  match p with
  | EmptyString => true
  | String c p' => plain c && plain_string p'
  end.

(** [n] spaces. *)
Fixpoint spaces (n : nat) : string :=
  match n with
  | O => EmptyString
  | S n' => String space (spaces n')
  end.

(** The exact sum of the non-NULL cells of a column. *)
Fixpoint column_total (column : list (option num)) : Q :=
  match column with
  | [] => 0
  | Some n :: rest => to_Q n + column_total rest
  | None :: rest => column_total rest
  end.

(** The number of non-NULL cells of a column. *)
Fixpoint column_count (column : list (option num)) : Z :=
  match column with
  | [] => 0
  | Some _ :: rest => column_count rest + 1
  | None :: rest => column_count rest
  end.

(** The value [sum()] has accumulated so far. *)
Definition sum_value (p : SumCtx) : Q :=
  if approx p then rSum p else inject_Z (iSum p).

(** A cell that is not an INTEGER: what [ROUND] returns. *)
Definition real_or_null (x : option num) : Prop :=
  match x with
  | Some (NInt _) => False
  | _ => True
  end.

(** The cell [ABS] raises on. *)
Definition abs_overflows (x : option num) : bool :=
  match x with
  | Some (NInt i) => i =? SMALLEST_INT64
  | _ => false
  end.

(** The rows of a table that belong to the group of key [k]. *)
Definition in_group {R K : Type} (key : R -> K) (cmp : K -> K -> comparison)
  (k : K) (r : R) : bool :=
  match cmp (key r) k with
  | Eq => true
  | _ => false
  end.

(** The rows stored under key [k] in a list of groups. *)
Definition group_rows {R K : Type} (cmp : K -> K -> comparison) (k : K)
  (groups : list (K * list R)) : list R :=
  match find (fun g => match cmp (fst g) k with Eq => true | _ => false end) groups with
  | Some g => snd g
  | None => []
  end.

(** The key of one group sorts strictly before the key of another. *)
Definition key_lt {R K : Type} (cmp : K -> K -> comparison)
  (g1 g2 : K * list R) : Prop :=
  cmp (fst g1) (fst g2) = Lt.

(** [a] is at least [b] in SQLite's order of values (NULL is least). *)
Definition amount_ge (a b : option num) : Prop := amount_compare a b <> Lt.

(** The five queries of [generate_analytics] on one table. *)
Definition run_queries (table : list Cleaned.row) : result analytics :=
  category_df <- category_query table ;;
  regional_df <- regional_query table ;;
  daily_df <- daily_query table ;;
  product_df <- product_query table ;;
  summary <- summary_query table ;;
  Ok {| category_df := category_df;
        regional_df := regional_df;
        daily_df := daily_df;
        product_df := product_df;
        summary := summary |}.


(** Sample rows, used to exercise the statements on concrete data. *)
Module Sample.
Local Open Scope string_scope.

Definition raw1 : Raw.row :=
  {| Raw.order_id := VNum (NInt 1);
     Raw.customer_id := VText "C001";
     Raw.customer_name := Some "NULL";
     Raw.product_name := Some " Laptop ";
     Raw.category := Some "ELECTRONICS";
     Raw.quantity := Some (NInt (-3));
     Raw.price := Some (NReal 10);
     Raw.order_date := Some "2024-01-05-invalid";
     Raw.ship_date := Some "";
     Raw.region := VText "North";
     Raw.payment_method := VText "Card" |}.

Definition raw2 : Raw.row :=
  {| Raw.order_id := VNum (NInt 2);
     Raw.customer_id := VText "C002";
     Raw.customer_name := Some "  NULL  ";
     Raw.product_name := Some "Desk";
     Raw.category := None;
     Raw.quantity := Some (NInt 2);
     Raw.price := Some (NReal (2675 # 1000));
     Raw.order_date := Some "2024-01-06";
     Raw.ship_date := None;
     Raw.region := VText "South";
     Raw.payment_method := VNull |}.

(** A refund entered with a negative price. *)
Definition raw_negative_price : Raw.row :=
  {| Raw.order_id := VNum (NInt 3);
     Raw.customer_id := VText "C003";
     Raw.customer_name := Some "Ana";
     Raw.product_name := Some "Chair";
     Raw.category := Some "Furniture";
     Raw.quantity := Some (NInt 3);
     Raw.price := Some (NReal (- 10));
     Raw.order_date := Some "2024-01-07-INVALID";
     Raw.ship_date := Some "2024-01-09";
     Raw.region := VText "East";
     Raw.payment_method := VText "Cash" |}.

Definition empty_world : world :=
  {| raw_sales := None; cleaned_sales := None; dashboard_data := None |}.

Definition cleaned1 : Cleaned.row :=
  {| Cleaned.order_id := VNum (NInt 1);
     Cleaned.customer_id := VText "C001";
     Cleaned.customer_name := Some "Unknown Customer";
     Cleaned.product_name := Some "Laptop";
     Cleaned.category := Some "Electronics";
     Cleaned.quantity := Some (NInt 3);
     Cleaned.price := Some (NReal 10);
     Cleaned.order_date := None;
     Cleaned.ship_date := None;
     Cleaned.region := VText "North";
     Cleaned.payment_method := VText "Card";
     Cleaned.total_amount := Some (NReal (3000 # 100)) |}.

Definition cleaned2 : Cleaned.row :=
  {| Cleaned.order_id := VNum (NInt 2);
     Cleaned.customer_id := VText "C002";
     Cleaned.customer_name := Some "NULL";
     Cleaned.product_name := Some "Desk";
     Cleaned.category := None;
     Cleaned.quantity := Some (NInt 2);
     Cleaned.price := Some (NReal (2675 # 1000));
     Cleaned.order_date := Some "2024-01-06";
     Cleaned.ship_date := None;
     Cleaned.region := VText "South";
     Cleaned.payment_method := VNull;
     Cleaned.total_amount := Some (NReal (535 # 100)) |}.

(** The files after a run on the two sample rows. *)
Definition loaded_world : world :=
  {| raw_sales := Some [raw1; raw2];
     cleaned_sales := Some [cleaned1; cleaned2];
     dashboard_data := None |}.

End Sample.

(** ** Further notions, for the properties of the remaining code *)

(** The text begins with a space. *)
Definition starts_with_space (s : string) : bool :=
  match s with
  | EmptyString => false
  | String c _ => Ascii.eqb c space
  end.

(** The text ends with a space. *)
Fixpoint ends_with_space (s : string) : bool :=
  match s with
  | EmptyString => false
  | String c EmptyString => Ascii.eqb c space
  | String _ s' => ends_with_space s'
  end.

(** The sum of the INTEGER cells of a column. *)
Fixpoint integer_total (column : list (option num)) : Z :=
  match column with
  | [] => 0
  | Some (NInt i) :: rest => i + integer_total rest
  | _ :: rest => integer_total rest
  end.

(** The sum of the absolute values of the INTEGER cells of a column. *)
Fixpoint abs_integer_total (column : list (option num)) : Z :=
  match column with
  | [] => 0
  | Some (NInt i) :: rest => Z.abs i + abs_integer_total rest
  | _ :: rest => abs_integer_total rest
  end.

(** A cell that is not a negative INTEGER. *)
Definition nonneg_integer (x : option num) : Prop :=
  match x with
  | Some (NInt i) => 0 <= i
  | _ => True
  end.

(** A raw row whose quantity and price are both present. *)
Definition priced (r : Raw.row) : bool :=
  match Raw.quantity r, Raw.price r with
  | Some _, Some _ => true
  | _, _ => false
  end.

(** The sum of a column of counts. *)
Definition count_total (counts : list Z) : Z := fold_right Z.add 0 counts.

(** The row of a cleaned table seen as input of a second cleaning pass. *)
Definition as_raw (c : Cleaned.row) : Raw.row :=
  {| Raw.order_id := Cleaned.order_id c;
     Raw.customer_id := Cleaned.customer_id c;
     Raw.customer_name := Cleaned.customer_name c;
     Raw.product_name := Cleaned.product_name c;
     Raw.category := Cleaned.category c;
     Raw.quantity := Cleaned.quantity c;
     Raw.price := Cleaned.price c;
     Raw.order_date := Cleaned.order_date c;
     Raw.ship_date := Cleaned.ship_date c;
     Raw.region := Cleaned.region c;
     Raw.payment_method := Cleaned.payment_method c |}.

(** The dates of the daily view are strictly ascending. *)
Definition date_lt (a b : Daily.row) : Prop :=
  text_compare (Daily.order_date a) (Daily.order_date b) = Lt.

(** A cleaned table on which no aggregate can overflow: the INTEGER
    quantities are not negative and add up to a 64-bit integer, and the
    amounts are REAL or NULL. *)
Definition summable (table : list Cleaned.row) : Prop :=
  Forall nonneg_integer (map Cleaned.quantity table)
  /\ integer_total (map Cleaned.quantity table) <= LARGEST_INT64
  /\ Forall real_or_null (map Cleaned.total_amount table).

(** The tab character. *)
Definition tab : ascii := ascii_of_nat 9.

(** A raw row whose customer_name is "NULL" between two tabs. *)
Definition raw_tab_padded : Raw.row :=
  {| Raw.order_id := VNum (NInt 4);
     Raw.customer_id := VText "C004";
     Raw.customer_name := Some (String tab ("NULL" ++ String tab ""));
     Raw.product_name := Some "Lamp";
     Raw.category := Some "Office";
     Raw.quantity := Some (NInt 1);
     Raw.price := Some (NReal 20);
     Raw.order_date := Some "2024-01-08";
     Raw.ship_date := Some "2024-01-09";
     Raw.region := VText "West";
     Raw.payment_method := VText "Card" |}%string.

(** A raw row without a price. *)
Definition raw_unpriced : Raw.row :=
  {| Raw.order_id := VNum (NInt 5);
     Raw.customer_id := VText "C005";
     Raw.customer_name := Some "Eli";
     Raw.product_name := Some "Pen";
     Raw.category := Some "stationery";
     Raw.quantity := Some (NInt 2);
     Raw.price := None;
     Raw.order_date := Some "2024-01-08";
     Raw.ship_date := None;
     Raw.region := VText "West";
     Raw.payment_method := VText "Cash" |}%string.

(** * Proofs *)

(** ** Worked examples *)

(** The example row of the specification: quantity -3, price 10.00,
    category "ELECTRONICS", customer_name "NULL" and an order_date ending
    in "-invalid". *)
Example clean_row_example : clean_row Sample.raw1 = Ok Sample.cleaned1.
Proof. reflexivity. Qed.

Example clean_row_padded_sentinel : clean_row Sample.raw2 = Ok Sample.cleaned2.
Proof. reflexivity. Qed.

Example like_ignores_case : like_match "%invalid%" "2024-01-07-INVALID" = true.
Proof. reflexivity. Qed.

Example like_needs_the_word : like_match "%invalid%" "2024-01-07" = false.
Proof. reflexivity. Qed.

Example like_underscore : like_match "2024-__-07" "2024-01-07" = true.
Proof. reflexivity. Qed.

(** [TRIM] strips spaces, not tabs. *)
Example trim_keeps_tab :
  TRIM (Some (String (ascii_of_nat 9) " Ana  ")) = Some (String (ascii_of_nat 9) " Ana").
Proof. reflexivity. Qed.

Example abs_smallest_integer : ABS (Some (NInt SMALLEST_INT64)) = Err IntegerOverflow.
Proof. reflexivity. Qed.

Example product_falls_back_to_real :
  mul (Some (NInt (2 ^ 62))) (Some (NInt 4)) = Some (NReal (inject_Z (2 ^ 64))).
Proof. reflexivity. Qed.

Example round_half_cent : ROUND (Some (NReal (2675 # 1000))) 2 = Some (NReal (268 # 100)).
Proof. reflexivity. Qed.

Example round_negative_half_cent :
  ROUND (Some (NReal (- 2675 # 1000))) 2 = Some (NReal (- 268 # 100)).
Proof. reflexivity. Qed.

Example sum_of_nulls : SUM [None; None] = Ok None.
Proof. reflexivity. Qed.

Example sum_integer_overflow :
  SUM [Some (NInt LARGEST_INT64); Some (NInt 1)] = Err IntegerOverflow.
Proof. reflexivity. Qed.

Example sample_run :
  snd (main [Sample.raw1; Sample.raw2] Sample.empty_world) = Ok tt.
Proof. reflexivity. Qed.

(** ** Text: case folding, [LIKE] *)

Section TextLemmas.
Local Open Scope string_scope.

Lemma upper_of_lower (c : ascii) :
  Spec.upper_char (sqlite3Tolower c) = Spec.upper_char c.
Proof. destruct c as [[] [] [] [] [] [] [] []]; reflexivity. Qed.

Lemma lower_of_upper (c : ascii) :
  sqlite3Tolower (Spec.upper_char c) = sqlite3Tolower c.
Proof. destruct c as [[] [] [] [] [] [] [] []]; reflexivity. Qed.

Lemma fold_char_eqb (c d : ascii) :
  Ascii.eqb (sqlite3Tolower c) (sqlite3Tolower d)
  = Ascii.eqb (Spec.upper_char c) (Spec.upper_char d).
Proof.
  destruct (Ascii.eqb_spec (sqlite3Tolower c) (sqlite3Tolower d)) as [H | H];
    destruct (Ascii.eqb_spec (Spec.upper_char c) (Spec.upper_char d)) as [H' | H'];
    try reflexivity; exfalso.
  - apply H'. rewrite <- (upper_of_lower c), <- (upper_of_lower d). now rewrite H.
  - apply H. rewrite <- (lower_of_upper c), <- (lower_of_upper d). now rewrite H'.
Qed.

Lemma fold_string_eqb (s t : string) :
  String.eqb (lower_string s) (lower_string t)
  = String.eqb (Spec.upper_string s) (Spec.upper_string t).
Proof.
  revert t; induction s as [| c s IH]; intros [| d t]; simpl; try reflexivity.
  now rewrite fold_char_eqb, IH.
Qed.

(** [LOWER(x) = 'key'] for a lower-case key is a case-insensitive match. *)
Lemma lower_eq_ignore_case (s key : string) :
  lower_string key = key ->
  String.eqb (lower_string s) key = Spec.eq_ignore_case s key.
Proof.
  intros Hkey. unfold Spec.eq_ignore_case.
  rewrite <- fold_string_eqb. now rewrite Hkey.
Qed.

Lemma any_suffix_ext (f g : string -> bool) (s : string) :
  (forall t, f t = g t) -> any_suffix f s = any_suffix g s.
Proof.
  intros H; induction s as [| c s IH]; simpl; rewrite H; [reflexivity |].
  now rewrite IH.
Qed.

Lemma any_suffix_upper (g : string -> bool) (s : string) :
  any_suffix g (Spec.upper_string s)
  = any_suffix (fun t => g (Spec.upper_string t)) s.
Proof.
  induction s as [| c s IH]; simpl; [reflexivity |]. now rewrite IH.
Qed.

Lemma like_empty_suffix (s : string) : any_suffix (like_match "") s = true.
Proof. induction s as [| c s IH]; simpl; auto. Qed.

(** A wildcard-free pattern followed by '%' is a case-blind prefix test. *)
Lemma like_prefix (p t : string) :
  plain_string p = true ->
  like_match (p ++ "%") t
  = String.prefix (Spec.upper_string p) (Spec.upper_string t).
Proof.
  revert t; induction p as [| c p IH]; intros t Hp.
  - simpl. rewrite like_empty_suffix. now destruct t.
  - simpl in Hp. apply andb_true_iff in Hp as [Hc Hp].
    unfold plain in Hc. apply andb_true_iff in Hc as [Hc1 Hc2].
    apply negb_true_iff in Hc1, Hc2.
    change (String c p ++ "%") with (String c (p ++ "%")).
    cbn [like_match]. rewrite Hc1, Hc2.
    destruct t as [| d t]; [reflexivity |].
    cbn [Spec.upper_string String.prefix].
    rewrite fold_char_eqb, IH by assumption.
    destruct (ascii_dec (Spec.upper_char c) (Spec.upper_char d)) as [E | E].
    + rewrite E, Ascii.eqb_refl. reflexivity.
    + apply Ascii.eqb_neq in E. now rewrite E.
Qed.

(** ['%' ++ p ++ '%'] for a wildcard-free [p] is a case-blind substring
    test. *)
Lemma like_contains (p s : string) :
  plain_string p = true ->
  like_match (String "%" (p ++ "%")) s = Spec.contains_ignore_case p s.
Proof.
  intros Hp. cbn [like_match]. rewrite Ascii.eqb_refl.
  unfold Spec.contains_ignore_case, Spec.contains.
  rewrite any_suffix_upper. apply any_suffix_ext.
  intros t. now apply like_prefix.
Qed.

Lemma clean_order_date_spec (order_date : option string) :
  clean_order_date order_date =
  match order_date with
  | None => None
  | Some s => if Spec.contains_ignore_case "invalid" s then None else Some s
  end.
Proof.
  destruct order_date as [s |]; [| reflexivity].
  unfold clean_order_date, LIKE, when.
  change "%invalid%" with (String "%" ("invalid" ++ "%")).
  rewrite like_contains by reflexivity.
  now destruct (Spec.contains_ignore_case "invalid" s).
Qed.
End TextLemmas.

(** ** Numbers: rounding *)

Section Numbers.
Local Open Scope Q_scope.

Lemma round_half_away_abs (x : Q) :
  round_half_away x
  = if Qle_bool 0 x then Qfloor (Qabs x + (1 # 2)) else (- Qfloor (Qabs x + (1 # 2)))%Z.
Proof.
  unfold round_half_away.
  destruct (Qle_bool 0 x) eqn:E.
  - apply Qle_bool_iff in E. now rewrite (Qabs_pos x E).
  - assert (Hx : x <= 0).
    { apply Qnot_lt_le. intro Hlt. apply Qlt_le_weak in Hlt.
      apply Qle_bool_iff in Hlt. congruence. }
    now rewrite (Qabs_neg x Hx).
Qed.

Lemma Qle_bool_scale (x : Q) : Qle_bool 0 (x * 100) = Qle_bool 0 x.
Proof.
  destruct (Qle_bool 0 x) eqn:E.
  - apply Qle_bool_iff. apply Qle_bool_iff in E.
    apply Qmult_le_0_compat; [assumption | discriminate].
  - destruct (Qle_bool 0 (x * 100)) eqn:E'; [| reflexivity].
    apply Qle_bool_iff in E'.
    assert (0 <= x).
    { setoid_replace x with (x * 100 * (1 # 100)) by field.
      apply Qmult_le_0_compat; [assumption | discriminate]. }
    apply Qle_bool_iff in H. congruence.
Qed.

(** [ROUND(x, 2)] is the specification's [round(x, 2)]. *)
Lemma ROUND_2 (n : num) : ROUND (Some n) 2 = Some (NReal (Spec.round2 (to_Q n))).
Proof.
  unfold ROUND, Spec.round2.
  change (Pos.pow 10 (Pos.of_nat 2)) with 100%positive.
  change (inject_Z (Zpos 100)) with 100.
  rewrite round_half_away_abs, Qle_bool_scale.
  assert (H : Qabs (to_Q n * 100) == Qabs (to_Q n) * 100).
  { rewrite Qabs_Qmult. reflexivity. }
  assert (H1 : Qfloor (Qabs (to_Q n * 100) + (1 # 2)) = Qfloor (Qabs (to_Q n) * 100 + (1 # 2)))
    by now rewrite H.
  rewrite H1. now destruct (Qle_bool 0 (to_Q n)).
Qed.

Lemma round2_nonneg (x : Q) : 0 <= x -> 0 <= Spec.round2 x.
Proof.
  intros Hx. unfold Spec.round2.
  apply Qle_bool_iff in Hx as Hb. rewrite Hb.
  assert (Hf : (0 <= Qfloor (Qabs x * 100 + (1 # 2)))%Z).
  { change 0%Z with (Qfloor 0). apply Qfloor_resp_le.
    apply Qle_trans with (Qabs x * 100 + 0).
    - rewrite Qplus_0_r. apply Qmult_le_0_compat; [apply Qabs_nonneg | discriminate].
    - apply Qplus_le_r. discriminate. }
  unfold Qle; cbn [Qnum Qden]. lia.
Qed.

End Numbers.

(** ** [SUM] *)

Section SumLemmas.
Local Open Scope Q_scope.

Lemma sumStep_value (p : SumCtx) (n : num) :
  sum_value (sumStep p (Some n)) == sum_value p + to_Q n.
Proof.
  unfold sum_value, sumStep.
  destruct (approx p) eqn:Ea; destruct n as [i | r]; cbn [to_Q].
  - cbn. reflexivity.
  - cbn. reflexivity.
  - destruct (fits_int64 (iSum p + i)); cbn.
    + rewrite inject_Z_plus. reflexivity.
    + reflexivity.
  - cbn. reflexivity.
Qed.

Lemma sumStep_cnt (p : SumCtx) (n : num) :
  cnt (sumStep p (Some n)) = (cnt p + 1)%Z.
Proof.
  unfold sumStep.
  destruct (approx p); destruct n as [i | r]; try reflexivity.
  now destruct (fits_int64 (iSum p + i)).
Qed.

Lemma column_count_nonneg (col : list (option num)) : (0 <= column_count col)%Z.
Proof. induction col as [| [n |] col IH]; simpl; lia. Qed.

Lemma fold_sumStep (col : list (option num)) (p : SumCtx) :
  sum_value (fold_left sumStep col p) == sum_value p + column_total col
  /\ cnt (fold_left sumStep col p) = (cnt p + column_count col)%Z.
Proof.
  revert p; induction col as [| [n |] col IH]; intros p; cbn [fold_left column_total column_count].
  - split; [ring | lia].
  - destruct (IH (sumStep p (Some n))) as [Hv Hc]. split.
    + rewrite Hv, sumStep_value. ring.
    + rewrite Hc, sumStep_cnt. lia.
  - apply IH.
Qed.

(** What [SUM] returns when it returns: NULL for a column without values,
    otherwise the exact total. *)
Lemma SUM_spec (col : list (option num)) (s : option num) :
  SUM col = Ok s ->
  match s with
  | Some n => (0 < column_count col)%Z /\ to_Q n == column_total col
  | None => column_count col = 0%Z
  end.
Proof.
  unfold SUM, sumFinalize.
  destruct (fold_sumStep col sum_init) as [Hv Hc].
  change (cnt sum_init) with 0%Z in Hc.
  unfold sum_value in Hv. cbn [sum_init approx rSum iSum] in Hv.
  set (p := fold_left sumStep col sum_init) in *.
  destruct (0 <? cnt p)%Z eqn:Hpos.
  - apply Z.ltb_lt in Hpos.
    destruct (approx p).
    + destruct (ovrfl p); [discriminate |].
      intros [= <-]. split; [lia |]. cbn [to_Q]. rewrite Hv.
      change (inject_Z 0) with 0. ring.
    + intros [= <-]. split; [lia |]. cbn [to_Q]. rewrite Hv.
      change (inject_Z 0) with 0. ring.
  - apply Z.ltb_ge in Hpos. intros [= <-].
    pose proof (column_count_nonneg col). lia.
Qed.

Lemma fold_sumStep_reals (col : list (option num)) (p : SumCtx) :
  Forall real_or_null col -> ovrfl p = false ->
  ovrfl (fold_left sumStep col p) = false
  /\ (0 < cnt (fold_left sumStep col p) -> 0 < cnt p \/ approx (fold_left sumStep col p) = true)%Z.
Proof.
  intros Hcol; revert p; induction Hcol as [| x col Hx Hcol IH]; intros p Hp.
  - cbn. split; [assumption | auto].
  - cbn [fold_left]. destruct x as [[i | r] |]; [contradiction | |].
    + assert (Hs : ovrfl (sumStep p (Some (NReal r))) = false
                   /\ approx (sumStep p (Some (NReal r))) = true).
      { unfold sumStep. destruct (approx p); cbn; auto. }
      destruct Hs as [Ho Ha]. destruct (IH _ Ho) as [IH1 IH2].
      split; [assumption |]. intros _. right.
      clear - Ha Hcol. revert Ha. generalize (sumStep p (Some (NReal r))).
      induction Hcol as [| y col Hy Hcol IHc]; intros q Hq; [assumption |].
      cbn [fold_left]. apply IHc.
      destruct y as [[j | t] |]; [contradiction | | assumption].
      unfold sumStep. now rewrite Hq.
    + cbn [sumStep]. now apply IH.
Qed.

(** On a column of REALs and NULLs [SUM] does not raise. *)
Lemma SUM_reals (col : list (option num)) :
  Forall real_or_null col -> exists s, SUM col = Ok s /\ real_or_null s.
Proof.
  intros Hcol. unfold SUM, sumFinalize.
  destruct (fold_sumStep_reals col sum_init Hcol eq_refl) as [Ho Ha].
  set (p := fold_left sumStep col sum_init) in *.
  destruct (0 <? cnt p)%Z eqn:Hpos.
  - apply Z.ltb_lt in Hpos. destruct (Ha Hpos) as [H0 | H1].
    + cbn in H0. lia.
    + rewrite H1, Ho. eexists; split; [reflexivity | exact I].
  - eexists; split; [reflexivity | exact I].
Qed.

Lemma ROUND_real_or_null (x : option num) (d : nat) : real_or_null (ROUND x d).
Proof. destruct x as [n |]; [| exact I]. unfold ROUND. now destruct d. Qed.

End SumLemmas.

(** ** Grouping and ordering *)

Lemma mapM_Forall2 {A B : Type} (f : A -> result B) (l : list A) (vs : list B) :
  mapM f l = Ok vs -> Forall2 (fun a v => f a = Ok v) l vs.
Proof.
  revert vs; induction l as [| a l IH]; intros vs; cbn [mapM].
  - intros [= <-]. constructor.
  - destruct (f a) as [b |] eqn:Ea; cbn [bind]; [| discriminate].
    destruct (mapM f l) as [bs |]; cbn [bind]; [| discriminate].
    intros [= <-]. constructor; auto.
Qed.

Lemma Forall2_In_r {A B : Type} (P : A -> B -> Prop) (l : list A) (l' : list B) (y : B) :
  Forall2 P l l' -> In y l' -> exists x, In x l /\ P x y.
Proof.
  induction 1 as [| a b l l' Hab _ IH]; [intros [] |].
  intros [<- | Hy].
  - exists a. split; [now left | assumption].
  - destruct (IH Hy) as (x & Hx & Hxy). exists x. split; [now right | assumption].
Qed.

Lemma mapM_length {A B : Type} (f : A -> result B) (l : list A) (vs : list B) :
  mapM f l = Ok vs -> List.length vs = List.length l.
Proof.
  intros H. apply mapM_Forall2 in H. symmetry. eapply Forall2_length; eauto.
Qed.

Lemma mapM_total {A B : Type} (f : A -> result B) (l : list A) :
  Forall (fun a => exists b, f a = Ok b) l -> exists vs, mapM f l = Ok vs.
Proof.
  induction 1 as [| a l [b Hb] _ [vs IH]]; cbn [mapM].
  - now exists [].
  - rewrite Hb, IH. cbn. now eexists.
Qed.

Section GroupLemmas.
Context {R K : Type}.
Variable key : R -> K.
Variable cmp : K -> K -> comparison.

Lemma add_to_group_perm (r : R) (gs : list (K * list R)) :
  Permutation (List.concat (map snd (add_to_group key cmp r gs)))
              (r :: List.concat (map snd gs)).
Proof.
  induction gs as [| [k rows] rest IH]; cbn [add_to_group].
  - reflexivity.
  - destruct (cmp (key r) k); cbn [map List.concat snd].
    + rewrite <- app_assoc. cbn [app].
      symmetry. apply Permutation_middle.
    + reflexivity.
    + rewrite IH. symmetry. apply Permutation_middle.
Qed.

Lemma fold_add_to_group_perm (table : list R) (gs : list (K * list R)) :
  Permutation
    (List.concat (map snd (fold_left (fun g r => add_to_group key cmp r g) table gs)))
    (List.concat (map snd gs) ++ table).
Proof.
  revert gs; induction table as [| r table IH]; intros gs; cbn [fold_left].
  - now rewrite app_nil_r.
  - rewrite IH, add_to_group_perm. cbn [app]. apply Permutation_middle.
Qed.

(** The groups partition the table. *)
Lemma group_by_perm (table : list R) :
  Permutation (List.concat (map snd (group_by key cmp table))) table.
Proof. unfold group_by. now rewrite fold_add_to_group_perm. Qed.

(** *** With a key order whose [Eq] is equality *)

Hypothesis cmp_eq : forall a b, cmp a b = Eq <-> a = b.
Hypothesis cmp_antisym : forall a b, cmp a b = CompOpp (cmp b a).
Hypothesis cmp_trans : forall a b c, cmp a b = Lt -> cmp b c = Lt -> cmp a c = Lt.

Lemma group_rows_above (k : K) (gs : list (K * list R)) :
  Forall (fun g => cmp k (fst g) = Lt) gs -> group_rows cmp k gs = [].
Proof.
  unfold group_rows. induction 1 as [| g gs Hg _ IH]; cbn [find]; [reflexivity |].
  rewrite cmp_antisym, Hg. cbn [CompOpp]. exact IH.
Qed.

Lemma add_to_group_keys (r : R) (gs : list (K * list R)) (g : K * list R) :
  In g (add_to_group key cmp r gs) ->
  (fst g = key r /\ In r (snd g)) \/ In g gs.
Proof.
  induction gs as [| [k rows] rest IH]; cbn [add_to_group].
  - intros [<- | []]. left. cbn. auto.
  - destruct (cmp (key r) k) eqn:E.
    + intros [<- | H]; [| right; now right].
      left. cbn. split; [symmetry; now apply cmp_eq | apply in_or_app; right; now left].
    + intros [<- | H]; [left; cbn; auto | now right].
    + intros [<- | H]; [right; now left |].
      destruct (IH H) as [? | ?]; [now left | right; now right].
Qed.

Lemma add_to_group_sorted (r : R) (gs : list (K * list R)) :
  StronglySorted (key_lt cmp) gs -> StronglySorted (key_lt cmp) (add_to_group key cmp r gs).
Proof.
  induction 1 as [| [k rows] rest Hs IH Hall]; cbn [add_to_group].
  - repeat constructor.
  - destruct (cmp (key r) k) eqn:E.
    + constructor; [assumption |]. exact Hall.
    + constructor; [now constructor |].
      constructor; [exact E |].
      eapply Forall_impl; [| exact Hall]. intros g Hg. unfold key_lt in *.
      cbn [fst] in *. eapply cmp_trans; eauto.
    + constructor; [assumption |].
      apply Forall_forall. intros g Hg.
      destruct (add_to_group_keys _ _ _ Hg) as [[Hk _] | Hin].
      * unfold key_lt. cbn [fst]. rewrite Hk, cmp_antisym, E. reflexivity.
      * rewrite Forall_forall in Hall. now apply Hall.
Qed.

(** Adding a row extends the group of its key and no other. *)
Lemma add_to_group_rows (r : R) (k : K) (gs : list (K * list R)) :
  StronglySorted (key_lt cmp) gs ->
  group_rows cmp k (add_to_group key cmp r gs)
  = group_rows cmp k gs ++ (if in_group key cmp k r then [r] else []).
Proof.
  unfold in_group.
  induction 1 as [| [k0 rows] rest Hs IH Hall]; cbn [add_to_group].
  - unfold group_rows. cbn [find fst snd]. now destruct (cmp (key r) k).
  - destruct (cmp (key r) k0) eqn:E.
    + apply cmp_eq in E. subst k0.
      unfold group_rows. cbn [find fst snd].
      destruct (cmp (key r) k); [reflexivity | |]; now rewrite app_nil_r.
    + unfold group_rows at 1. cbn [find fst snd].
      destruct (cmp (key r) k) eqn:E'.
      * apply cmp_eq in E'. subst k.
        rewrite group_rows_above; [reflexivity |].
        constructor; [exact E |].
        eapply Forall_impl; [| exact Hall]. intros g Hg. unfold key_lt in Hg.
        cbn [fst] in Hg. eapply cmp_trans; eauto.
      * now rewrite app_nil_r.
      * now rewrite app_nil_r.
    + unfold group_rows at 1 2. cbn [find fst snd].
      destruct (cmp k0 k) eqn:E'.
      * apply cmp_eq in E'. subst k0. rewrite E. now rewrite app_nil_r.
      * exact IH.
      * exact IH.
Qed.

Lemma add_to_group_nonempty (r : R) (gs : list (K * list R)) :
  Forall (fun g => snd g <> []) gs ->
  Forall (fun g => snd g <> []) (add_to_group key cmp r gs).
Proof.
  induction 1 as [| [k rows] rest Hg Hall IH]; cbn [add_to_group].
  - repeat constructor. discriminate.
  - destruct (cmp (key r) k).
    + constructor; [| assumption]. cbn. now destruct rows.
    + constructor; [cbn; discriminate |]. now constructor.
    + now constructor.
Qed.

Lemma fold_add_to_group (table : list R) (gs : list (K * list R)) :
  StronglySorted (key_lt cmp) gs -> Forall (fun g => snd g <> []) gs ->
  let gs' := fold_left (fun g r => add_to_group key cmp r g) table gs in
  StronglySorted (key_lt cmp) gs'
  /\ Forall (fun g => snd g <> []) gs'
  /\ forall k, group_rows cmp k gs'
               = group_rows cmp k gs ++ filter (in_group key cmp k) table.
Proof.
  revert gs; induction table as [| r table IH]; intros gs Hs Hne; cbn [fold_left filter].
  - repeat split; auto. intros k. now rewrite app_nil_r.
  - destruct (IH (add_to_group key cmp r gs)) as (H1 & H2 & H3).
    + now apply add_to_group_sorted.
    + now apply add_to_group_nonempty.
    + repeat split; auto. intros k.
      rewrite H3, add_to_group_rows by assumption.
      rewrite <- app_assoc. now destruct (in_group key cmp k r).
Qed.

Lemma group_rows_in (k : K) (rows : list R) (gs : list (K * list R)) :
  StronglySorted (key_lt cmp) gs -> In (k, rows) gs -> group_rows cmp k gs = rows.
Proof.
  induction 1 as [| [k0 rows0] rest Hs IH Hall]; [intros [] |].
  intros [[= -> ->] | Hin]; unfold group_rows; cbn [find fst snd].
  - assert (E : cmp k k = Eq) by now apply cmp_eq. now rewrite E.
  - rewrite Forall_forall in Hall. specialize (Hall _ Hin).
    unfold key_lt in Hall. cbn [fst] in Hall. rewrite Hall. now apply IH.
Qed.

Lemma sorted_keys_NoDup (gs : list (K * list R)) :
  StronglySorted (key_lt cmp) gs -> NoDup (map fst gs).
Proof.
  induction 1 as [| g rest Hs IH Hall]; cbn [map]; constructor; [| assumption].
  intros Hin. apply in_map_iff in Hin as (g' & Hk & Hin).
  rewrite Forall_forall in Hall. specialize (Hall _ Hin).
  unfold key_lt in Hall. rewrite Hk in Hall.
  assert (E : cmp (fst g) (fst g) = Eq) by now apply cmp_eq.
  congruence.
Qed.

(** [GROUP BY]: one group per key, holding the rows of that key in table
    order; no group is empty and no key is repeated. *)
Lemma group_by_spec (table : list R) :
  NoDup (map fst (group_by key cmp table))
  /\ forall k rows, In (k, rows) (group_by key cmp table) ->
       rows = filter (in_group key cmp k) table /\ rows <> [].
Proof.
  destruct (fold_add_to_group table []) as (H1 & H2 & H3);
    [constructor | constructor |].
  fold (group_by key cmp table) in H1, H2, H3.
  split; [now apply sorted_keys_NoDup |].
  intros k rows Hin. split.
  - rewrite <- (group_rows_in k rows _ H1 Hin). now rewrite H3.
  - rewrite Forall_forall in H2. exact (H2 _ Hin).
Qed.
End GroupLemmas.

Section OrderLemmas.
Context {R : Type}.
Variable precedes : R -> R -> bool.

Lemma insert_row_perm (r : R) (l : list R) :
  Permutation (insert_row precedes r l) (r :: l).
Proof.
  induction l as [| r' l IH]; cbn [insert_row]; [reflexivity |].
  destruct (precedes r r'); [reflexivity |].
  rewrite IH. apply perm_swap.
Qed.

Lemma order_by_perm (l : list R) : Permutation (order_by precedes l) l.
Proof.
  induction l as [| r l IH]; cbn [order_by fold_right]; [reflexivity |].
  fold (order_by precedes l). now rewrite insert_row_perm, IH.
Qed.

Hypothesis precedes_total : forall a b, precedes a b = false -> precedes b a = true.

Lemma insert_row_sorted (r : R) (l : list R) :
  Sorted (fun a b => precedes a b = true) l ->
  Sorted (fun a b => precedes a b = true) (insert_row precedes r l).
Proof.
  induction 1 as [| r' l Hs IH Hhd]; cbn [insert_row].
  - repeat constructor.
  - destruct (precedes r r') eqn:E.
    + constructor; [now constructor | now constructor].
    + constructor; [assumption |].
      destruct l as [| r'' l]; cbn [insert_row].
      * constructor. now apply precedes_total.
      * destruct (precedes r r''); constructor.
        -- now apply precedes_total.
        -- now inversion Hhd.
Qed.

Lemma order_by_sorted (l : list R) :
  Sorted (fun a b => precedes a b = true) (order_by precedes l).
Proof.
  induction l as [| r l IH]; cbn [order_by fold_right]; [constructor |].
  now apply insert_row_sorted.
Qed.
End OrderLemmas.




(** ** Orders on keys and amounts; grouped revenue *)

Section KeyOrder.

Lemma text_compare_eq (a b : option string) : text_compare a b = Eq <-> a = b.
Proof.
  destruct a as [s |], b as [t |]; cbn; try (split; congruence).
  rewrite (String_as_OT.cmp_eq s t). split; congruence.
Qed.

Lemma text_compare_antisym (a b : option string) :
  text_compare a b = CompOpp (text_compare b a).
Proof.
  destruct a as [s |], b as [t |]; cbn; try reflexivity.
  apply String_as_OT.cmp_antisym.
Qed.

Lemma text_compare_trans (a b c : option string) :
  text_compare a b = Lt -> text_compare b c = Lt -> text_compare a c = Lt.
Proof.
  destruct a as [s |], b as [t |], c as [u |]; cbn; try congruence.
  intros H1 H2. apply String_as_OT.cmp_lt in H1, H2. apply String_as_OT.cmp_lt.
  eapply String_as_OT.lt_trans; eauto.
Qed.




Lemma amount_compare_antisym (a b : option num) :
  amount_compare a b = CompOpp (amount_compare b a).
Proof.
  destruct a as [x |], b as [y |]; cbn; try reflexivity.
  unfold num_compare. symmetry. apply Qcompare_antisym.
Qed.

Lemma descending_total {R : Type} (col : R -> option num) (a b : R) :
  descending amount_compare col a b = false ->
  descending amount_compare col b a = true.
Proof.
  unfold descending. rewrite (amount_compare_antisym (col b) (col a)).
  now destruct (amount_compare (col a) (col b)).
Qed.

Lemma ascending_total {R : Type} (col : R -> option string) (a b : R) :
  ascending text_compare col a b = false ->
  ascending text_compare col b a = true.
Proof.
  unfold ascending. rewrite (text_compare_antisym (col b) (col a)).
  now destruct (text_compare (col a) (col b)).
Qed.

Lemma descending_amount_ge {R : Type} (col : R -> option num) (a b : R) :
  descending amount_compare col a b = true <-> amount_ge (col a) (col b).
Proof.
  unfold descending, amount_ge.
  destruct (amount_compare (col a) (col b)); split; congruence.
Qed.

Lemma amount_ge_trans (a b c : option num) :
  amount_ge a b -> amount_ge b c -> amount_ge a c.
Proof.
  unfold amount_ge.
  destruct a as [x |], b as [y |], c as [z |]; cbn; try congruence.
  unfold num_compare. intros H1 H2 H3.
  apply Qlt_alt in H3.
  assert (to_Q y <= to_Q x)%Q.
  { apply Qnot_lt_le. intro H. apply Qlt_alt in H. contradiction. }
  assert (to_Q z <= to_Q y)%Q.
  { apply Qnot_lt_le. intro H'. apply Qlt_alt in H'. contradiction. }
  lra.
Qed.

(** [ORDER BY col DESC] leaves every row at least as large as all the rows
    after it. *)
Lemma order_by_descending {R : Type} (col : R -> option num) (l : list R) :
  StronglySorted (fun a b => amount_ge (col a) (col b))
    (order_by (descending amount_compare col) l).
Proof.
  apply Sorted_StronglySorted.
  - intros a b c. apply amount_ge_trans.
  - pose proof (order_by_sorted (descending amount_compare col)
                  (descending_total col) l) as H.
    induction H as [| a l' Hs IH Hhd]; constructor; [assumption |].
    destruct Hhd; constructor. now apply descending_amount_ge.
Qed.
End KeyOrder.

(** ** The Cleaner *)

Section CleanerLemmas.

Lemma ABS_succeeds (x : option num) :
  abs_overflows x = false -> exists y, ABS x = Ok y.
Proof.
  destruct x as [[i | r] |]; cbn; intros H; try (eexists; reflexivity).
  rewrite H. destruct (i <? 0); eexists; reflexivity.
Qed.

Lemma ABS_raises (x : option num) :
  abs_overflows x = true -> ABS x = Err IntegerOverflow.
Proof.
  destruct x as [[i | r] |]; cbn; intros H; try discriminate.
  rewrite H. apply Z.eqb_eq in H. subst i. reflexivity.
Qed.

(** [ABS] returns the absolute value, exactly. *)
Lemma ABS_value (n : num) (y : option num) :
  ABS (Some n) = Ok y -> exists m, y = Some m /\ (to_Q m == Qabs (to_Q n))%Q.
Proof.
  destruct n as [i | r]; cbn [ABS].
  - destruct (i <? 0) eqn:E.
    + destruct (i =? SMALLEST_INT64); [discriminate |].
      intros [= <-]. eexists; split; [reflexivity |].
      apply Z.ltb_lt in E. cbn. rewrite Z.abs_neq by lia. reflexivity.
    + intros [= <-]. eexists; split; [reflexivity |].
      apply Z.ltb_ge in E. cbn. rewrite Z.abs_eq by lia. reflexivity.
  - intros [= <-]. eexists; split; [reflexivity |]. cbn [to_Q].
    destruct (Qle_bool 0 r) eqn:E.
    + apply Qle_bool_iff in E. now rewrite Qabs_pos.
    + rewrite Qabs_neg; [reflexivity |].
      apply Qnot_lt_le. intro Hlt. apply Qlt_le_weak in Hlt.
      apply Qle_bool_iff in Hlt. congruence.
Qed.

(** In the model the product has the exact value of its operands' product. *)
Lemma mul_value (a b : num) :
  exists m, mul (Some a) (Some b) = Some m /\ (to_Q m == to_Q a * to_Q b)%Q.
Proof.
  destruct a as [i | r], b as [j | t]; cbn [mul to_Q];
    try (eexists; split; reflexivity).
  destruct (fits_int64 (i * j)); eexists; split; reflexivity.
Qed.

Lemma clean_total_amount_inv (quantity price t : option num) :
  clean_total_amount quantity price = Ok t ->
  exists q, ABS quantity = Ok q /\ t = ROUND (mul q price) 2.
Proof.
  unfold clean_total_amount.
  destruct (ABS quantity) as [q |]; cbn [bind]; [| discriminate].
  intros [= <-]. now exists q.
Qed.

(** A missing quantity or price gives a missing amount. *)
Lemma clean_total_amount_null (quantity price t : option num) :
  clean_total_amount quantity price = Ok t ->
  quantity = None \/ price = None -> t = None.
Proof.
  intros H Hnull. destruct (clean_total_amount_inv _ _ _ H) as (q & Hq & ->).
  destruct Hnull as [-> | ->].
  - cbn [ABS] in Hq. injection Hq as <-. reflexivity.
  - now destruct q as [[i | x] |].
Qed.

(** The sign of the amount is that of the price. *)
Lemma clean_total_amount_nonneg (quantity : option num) (p t : num) :
  clean_total_amount quantity (Some p) = Ok (Some t) ->
  (0 <= to_Q p)%Q -> (0 <= to_Q t)%Q.
Proof.
  intros H Hp. destruct (clean_total_amount_inv _ _ _ H) as (q & Hq & Ht).
  destruct quantity as [n |];
    [| cbn [ABS] in Hq; injection Hq as <-; discriminate].
  destruct (ABS_value _ _ Hq) as (m & -> & Hm).
  destruct (mul_value m p) as (k & Hk & Hv). rewrite Hk, ROUND_2 in Ht.
  injection Ht as ->. cbn [to_Q]. apply round2_nonneg.
  rewrite Hv, Hm. apply Qmult_le_0_compat; [apply Qabs_nonneg | assumption].
Qed.

Lemma clean_row_inv (r : Raw.row) (c : Cleaned.row) :
  clean_row r = Ok c ->
  exists q t,
    ABS (Raw.quantity r) = Ok q
    /\ clean_total_amount (Raw.quantity r) (Raw.price r) = Ok t
    /\ c = {| Cleaned.order_id := Raw.order_id r;
              Cleaned.customer_id := Raw.customer_id r;
              Cleaned.customer_name := clean_customer_name (Raw.customer_name r);
              Cleaned.product_name := TRIM (Raw.product_name r);
              Cleaned.category := clean_category (Raw.category r);
              Cleaned.quantity := q;
              Cleaned.price := Raw.price r;
              Cleaned.order_date := clean_order_date (Raw.order_date r);
              Cleaned.ship_date := clean_ship_date (Raw.ship_date r);
              Cleaned.region := Raw.region r;
              Cleaned.payment_method := Raw.payment_method r;
              Cleaned.total_amount := t |}.
Proof.
  unfold clean_row.
  destruct (ABS (Raw.quantity r)) as [q |]; cbn [bind]; [| discriminate].
  destruct (clean_total_amount _ _) as [t |]; cbn [bind]; [| discriminate].
  intros [= <-]. now exists q, t.
Qed.

Lemma clean_row_succeeds (r : Raw.row) :
  abs_overflows (Raw.quantity r) = false -> exists c, clean_row r = Ok c.
Proof.
  intros H. destruct (ABS_succeeds _ H) as [q Hq].
  unfold clean_row, clean_total_amount. rewrite Hq. cbn. now eexists.
Qed.

Lemma clean_row_raises (r : Raw.row) :
  abs_overflows (Raw.quantity r) = true -> clean_row r = Err IntegerOverflow.
Proof. intros H. unfold clean_row. now rewrite (ABS_raises _ H). Qed.

(** What [clean_data] does to the files, whatever they held before. *)
Lemma clean_data_eq (w : world) :
  clean_data w =
  match raw_sales w with
  | None =>
      ({| raw_sales := None; cleaned_sales := None;
          dashboard_data := dashboard_data w |}, Err (NoSuchTable "raw_sales"))
  | Some rows =>
      match mapM clean_row rows with
      | Ok cleaned =>
          ({| raw_sales := Some rows; cleaned_sales := Some cleaned;
              dashboard_data := dashboard_data w |}, Ok tt)
      | Err e =>
          ({| raw_sales := Some rows; cleaned_sales := None;
              dashboard_data := dashboard_data w |}, Err e)
      end
  end.
Proof.
  unfold clean_data, seq, drop_cleaned_sales, cleaning_sql.
  cbn [raw_sales cleaned_sales dashboard_data].
  destruct (raw_sales w) as [rows |]; [| reflexivity].
  now destruct (mapM clean_row rows).
Qed.

Lemma ltrim_spaces (n : nat) (s : string) : ltrim (spaces n ++ s) = ltrim s.
Proof. induction n as [| n IH]; [reflexivity |]. cbn. exact IH. Qed.

Lemma rtrim_spaces (m : nat) : rtrim (spaces m) = EmptyString.
Proof. induction m as [| m IH]; [reflexivity |]. cbn. now rewrite IH. Qed.

Lemma rtrim_app_spaces (s : string) (m : nat) :
  rtrim (s ++ spaces m) = rtrim s.
Proof.
  induction s as [| c s IH]; cbn [String.append rtrim].
  - apply rtrim_spaces.
  - now rewrite IH.
Qed.

Lemma string_length_app (s t : string) :
  String.length (s ++ t) = (String.length s + String.length t)%nat.
Proof. induction s as [| c s IH]; cbn; [reflexivity | now rewrite IH]. Qed.

Lemma length_spaces (n : nat) : String.length (spaces n) = n.
Proof. induction n as [| n IH]; cbn; [reflexivity | now rewrite IH]. Qed.

Lemma clean_customer_name_spec (customer_name : option string) :
  clean_customer_name customer_name =
  match customer_name with
  | None => Some "Unknown Customer"%string
  | Some s => if String.eqb s "NULL" then Some "Unknown Customer"%string
              else Some (rtrim (ltrim s))
  end.
Proof.
  destruct customer_name as [s |]; [| reflexivity].
  unfold clean_customer_name. cbn. now destruct (String.eqb s "NULL").
Qed.

Lemma clean_category_spec (category : option string) :
  clean_category category =
  match category with
  | None => None
  | Some s =>
      if Spec.eq_ignore_case s "electronics" then Some "Electronics"%string
      else if Spec.eq_ignore_case s "furniture" then Some "Furniture"%string
      else if Spec.eq_ignore_case s "stationery" then Some "Stationery"%string
      else if Spec.eq_ignore_case s "office" then Some "Office"%string
      else Some s
  end.
Proof.
  destruct category as [s |]; [| reflexivity].
  unfold clean_category, LOWER, text_eq, when. cbn [option_map].
  rewrite !lower_eq_ignore_case by reflexivity.
  destruct (Spec.eq_ignore_case s "electronics"); [reflexivity |].
  destruct (Spec.eq_ignore_case s "furniture"); [reflexivity |].
  destruct (Spec.eq_ignore_case s "stationery"); [reflexivity |].
  now destruct (Spec.eq_ignore_case s "office").
Qed.
End CleanerLemmas.

(** ** Claims about the Cleaner *)

Lemma prefix_iff (needle s : string) :
  String.prefix needle s = true <-> exists post, s = (needle ++ post)%string.
Proof.
  revert s; induction needle as [| c needle IH]; intros s.
  - split; [intros _; now exists s | intros _; now destruct s].
  - destruct s as [| d s]; cbn [String.prefix].
    + split; [discriminate | intros [post H]; discriminate].
    + destruct (ascii_dec c d) as [-> | Hne].
      * rewrite IH. split; intros [post H]; exists post.
        -- cbn. now rewrite H.
        -- cbn in H. now injection H.
      * split; [discriminate |]. intros [post H]. cbn in H. congruence.
Qed.

(** [Spec.contains] is the occurrence of [needle] as a substring. *)
Lemma contains_iff (needle s : string) :
  Spec.contains needle s = true
  <-> exists pre post, s = (pre ++ needle ++ post)%string.
Proof.
  unfold Spec.contains. induction s as [| c s IH]; cbn [any_suffix].
  - rewrite orb_false_r, prefix_iff. split.
    + intros [post H]. now exists EmptyString, post.
    + intros (pre & post & H). destruct pre; [now exists post | discriminate].
  - rewrite orb_true_iff, prefix_iff, IH. split.
    + intros [[post H] | (pre & post & H)].
      * now exists EmptyString, post.
      * exists (String c pre), post. cbn. now rewrite H.
    + intros (pre & post & H). destruct pre as [| d pre].
      * left. now exists post.
      * right. exists pre, post. cbn in H. now injection H.
Qed.

(** C1, as stated: the cleaned order_date is null exactly when the raw text
    contains "invalid" matched case-sensitively.  This fails: [LIKE] ignores
    the case of ASCII letters, so "2024-01-07-INVALID" is nulled too. *)
Lemma order_date_case_sensitive_counterexample :
  exists c,
    clean_row Sample.raw_negative_price = Ok c
    /\ Raw.order_date Sample.raw_negative_price = Some "2024-01-07-INVALID"%string
    /\ Spec.contains "invalid" "2024-01-07-INVALID" = false
    /\ Cleaned.order_date c = None.
Proof. eexists. repeat split; vm_compute; reflexivity. Qed.

(** C1, amended: for every raw row the cleaned order_date is null exactly
    when the raw order_date is null or contains "invalid" up to the case of
    ASCII letters; otherwise it is the raw order_date unchanged. *)
Theorem order_date_nulled_ignoring_case (r : Raw.row) (c : Cleaned.row) :
  clean_row r = Ok c ->
  Cleaned.order_date c =
  match Raw.order_date r with
  | None => None
  | Some s => if Spec.contains_ignore_case "invalid" s then None else Some s
  end.
Proof.
  intros H. destruct (clean_row_inv r c H) as (q & t & _ & _ & ->).
  cbn [Cleaned.order_date]. apply clean_order_date_spec.
Qed.

Lemma order_date_nulled_ignoring_case_witness :
  Cleaned.order_date Sample.cleaned1 = None.
Proof.
  exact (order_date_nulled_ignoring_case Sample.raw1 Sample.cleaned1 eq_refl).
Defined.

(** C3, as stated: total_amount is never negative, also for a negative
    price.  This fails: 3 units at a price of -10 give -30. *)
Lemma total_amount_negative_counterexample :
  exists c,
    clean_row Sample.raw_negative_price = Ok c
    /\ Cleaned.total_amount c = Some (NReal (- 3000 # 100))
    /\ ~ (0 <= - 3000 # 100)%Q.
Proof.
  eexists. split; [vm_compute; reflexivity |].
  split; [reflexivity |]. intros H. vm_compute in H. now apply H.
Qed.

(** C3, amended: for every cleaned row total_amount is the value of
    ROUND(ABS(quantity) * price, 2) on the raw row's quantity and price; it
    is NULL when the quantity or the price is NULL; and when it is not NULL
    and the price is not negative, it is greater than or equal to 0. *)
Theorem total_amount_rounded (r : Raw.row) (c : Cleaned.row) :
  clean_row r = Ok c ->
  (exists q,
      ABS (Raw.quantity r) = Ok q
      /\ Cleaned.total_amount c = ROUND (mul q (Raw.price r)) 2)
  /\ (Raw.quantity r = None \/ Raw.price r = None ->
      Cleaned.total_amount c = None)
  /\ (forall p t, Raw.price r = Some p -> (0 <= to_Q p)%Q ->
                  Cleaned.total_amount c = Some t -> (0 <= to_Q t)%Q).
Proof.
  intros H. destruct (clean_row_inv r c H) as (q & t & _ & Ht & ->).
  cbn [Cleaned.total_amount]. split; [| split].
  - now apply clean_total_amount_inv.
  - now apply clean_total_amount_null.
  - intros p t' Hp Hpos ->. rewrite Hp in Ht.
    eapply clean_total_amount_nonneg; eauto.
Qed.

Lemma total_amount_rounded_witness :
  Cleaned.total_amount Sample.cleaned1
  = ROUND (mul (Some (NInt 3)) (Some (NReal 10))) 2
  /\ (0 <= 3000 # 100)%Q.
Proof.
  destruct (total_amount_rounded Sample.raw1 Sample.cleaned1 eq_refl)
    as ((q & Hq & Ht) & _ & Hpos).
  split.
  - injection Hq as <-. exact Ht.
  - apply (Hpos (NReal 10) (NReal (3000 # 100)) eq_refl); [| reflexivity].
    vm_compute. discriminate.
Defined.

(** C4: after the Cleaner has run the cleaned table has exactly one row per
    raw row, also when a cleaned table was left by an earlier run; the
    Cleaner does run whenever no quantity is the smallest 64-bit integer. *)
Theorem cleaned_row_count (w : world) (rows : list Raw.row) :
  raw_sales w = Some rows ->
  (Forall (fun r => abs_overflows (Raw.quantity r) = false) rows ->
   exists cleaned,
     clean_data w = ({| raw_sales := Some rows;
                        cleaned_sales := Some cleaned;
                        dashboard_data := dashboard_data w |}, Ok tt)
     /\ List.length cleaned = List.length rows)
  /\ (forall w', clean_data w = (w', Ok tt) ->
      exists cleaned,
        cleaned_sales w' = Some cleaned
        /\ raw_sales w' = Some rows
        /\ List.length cleaned = List.length rows).
Proof.
  intros Hraw. rewrite clean_data_eq, Hraw. split.
  - intros Hq.
    destruct (mapM_total clean_row rows) as [cleaned Hc].
    { eapply Forall_impl; [| exact Hq]. intros r. apply clean_row_succeeds. }
    rewrite Hc. exists cleaned. split; [reflexivity |].
    eapply mapM_length; eauto.
  - intros w'. destruct (mapM clean_row rows) as [cleaned |] eqn:Hc; [| discriminate].
    intros [= <-]. exists cleaned. repeat split.
    eapply mapM_length; eauto.
Qed.

Lemma cleaned_row_count_witness :
  exists cleaned,
    clean_data Sample.loaded_world
    = ({| raw_sales := Some [Sample.raw1; Sample.raw2];
          cleaned_sales := Some cleaned;
          dashboard_data := None |}, Ok tt)
    /\ List.length cleaned = 2%nat.
Proof.
  destruct (cleaned_row_count Sample.loaded_world _ eq_refl) as [H _].
  apply H. repeat constructor.
Defined.

(** C5: the cleaned category is the canonical label whenever the raw
    category matches its key case-insensitively, the raw value unchanged
    when it matches no key, and never a differently-cased variant of a
    canonical label. *)
Theorem category_canonical (r : Raw.row) (c : Cleaned.row) :
  clean_row r = Ok c ->
  (forall s key label,
      Raw.category r = Some s -> In (key, label) Spec.canonical ->
      Spec.eq_ignore_case s key = true -> Cleaned.category c = Some label)
  /\ ((forall s key label,
         Raw.category r = Some s -> In (key, label) Spec.canonical ->
         Spec.eq_ignore_case s key = false) ->
      Cleaned.category c = Raw.category r)
  /\ (forall t key label,
        Cleaned.category c = Some t -> In (key, label) Spec.canonical ->
        Spec.eq_ignore_case t key = true -> t = label).
Proof.
  intros H. destruct (clean_row_inv r c H) as (q & t & _ & _ & ->).
  cbn [Cleaned.category]. rewrite clean_category_spec.
  destruct (Raw.category r) as [s |].
  - split; [| split].
    + intros s' key label [= <-] Hin Hm.
      unfold Spec.eq_ignore_case in *. apply String.eqb_eq in Hm.
      rewrite !Hm.
      cbn in Hin. destruct Hin as [[= <- <-] | [[= <- <-] | [[= <- <-] | [[= <- <-] | []]]]];
        reflexivity.
    + intros Hnone.
      rewrite (Hnone s "electronics" "Electronics" eq_refl)%string by (cbn; auto).
      rewrite (Hnone s "furniture" "Furniture" eq_refl)%string by (cbn; auto).
      rewrite (Hnone s "stationery" "Stationery" eq_refl)%string by (cbn; auto).
      rewrite (Hnone s "office" "Office" eq_refl)%string by (cbn; auto 6).
      reflexivity.
    + intros t' key label Ht Hin Hm.
      cbn in Hin.
      destruct (Spec.eq_ignore_case s "electronics") eqn:E1;
        [injection Ht as <-;
         destruct Hin as [[= <- <-] | [[= <- <-] | [[= <- <-] | [[= <- <-] | []]]]];
         (reflexivity || discriminate) |].
      destruct (Spec.eq_ignore_case s "furniture") eqn:E2;
        [injection Ht as <-;
         destruct Hin as [[= <- <-] | [[= <- <-] | [[= <- <-] | [[= <- <-] | []]]]];
         (reflexivity || discriminate) |].
      destruct (Spec.eq_ignore_case s "stationery") eqn:E3;
        [injection Ht as <-;
         destruct Hin as [[= <- <-] | [[= <- <-] | [[= <- <-] | [[= <- <-] | []]]]];
         (reflexivity || discriminate) |].
      destruct (Spec.eq_ignore_case s "office") eqn:E4;
        [injection Ht as <-;
         destruct Hin as [[= <- <-] | [[= <- <-] | [[= <- <-] | [[= <- <-] | []]]]];
         (reflexivity || discriminate) |].
      injection Ht as <-.
      destruct Hin as [[= <- <-] | [[= <- <-] | [[= <- <-] | [[= <- <-] | []]]]];
        congruence.
  - split; [| split]; try discriminate. reflexivity.
Qed.

Lemma category_canonical_witness :
  Cleaned.category Sample.cleaned1 = Some "Electronics"%string.
Proof.
  destruct (category_canonical Sample.raw1 Sample.cleaned1 eq_refl) as [H _].
  apply (H "ELECTRONICS" "electronics" "Electronics")%string.
  - reflexivity.
  - simpl. left. reflexivity.
  - vm_compute. reflexivity.
Defined.

(** C10: a NULL raw category stays NULL in the cleaned row. *)
Theorem category_null_passthrough (r : Raw.row) (c : Cleaned.row) :
  clean_row r = Ok c -> Raw.category r = None -> Cleaned.category c = None.
Proof.
  intros H Hnull. destruct (clean_row_inv r c H) as (q & t & _ & _ & ->).
  cbn [Cleaned.category]. now rewrite Hnull.
Qed.

Lemma category_null_passthrough_witness :
  Cleaned.category Sample.cleaned2 = None.
Proof.
  exact (category_null_passthrough Sample.raw2 Sample.cleaned2 eq_refl eq_refl).
Defined.

(** ** The script as a whole *)

Section PipelineLemmas.

Lemma generate_analytics_eq (w : world) :
  generate_analytics w =
  (w, match cleaned_sales w with
      | Some table => run_queries table
      | None => Err (NoSuchTable "cleaned_sales")
      end).
Proof.
  unfold generate_analytics, seq, read_sql_query, ret, run_queries.
  destruct (cleaned_sales w) as [table |] eqn:E; [| reflexivity].
  destruct (category_query table); cbn [bind]; rewrite ?E; [| reflexivity].
  destruct (regional_query table); cbn [bind]; rewrite ?E; [| reflexivity].
  destruct (daily_query table); cbn [bind]; rewrite ?E; [| reflexivity].
  destruct (product_query table); cbn [bind]; rewrite ?E; [| reflexivity].
  destruct (summary_query table); reflexivity.
Qed.

Lemma run_queries_inv (table : list Cleaned.row) (a : analytics) :
  run_queries table = Ok a ->
  category_query table = Ok (category_df a)
  /\ regional_query table = Ok (regional_df a)
  /\ daily_query table = Ok (daily_df a)
  /\ product_query table = Ok (product_df a)
  /\ summary_query table = Ok (summary a).
Proof.
  unfold run_queries.
  destruct (category_query table); cbn [bind]; [| discriminate].
  destruct (regional_query table); cbn [bind]; [| discriminate].
  destruct (daily_query table); cbn [bind]; [| discriminate].
  destruct (product_query table); cbn [bind]; [| discriminate].
  destruct (summary_query table); cbn [bind]; [| discriminate].
  intros [= <-]. repeat split.
Qed.

Lemma generate_analytics_inv (w w' : world) (a : analytics) :
  generate_analytics w = (w', Ok a) ->
  exists table, cleaned_sales w = Some table /\ run_queries table = Ok a.
Proof.
  rewrite generate_analytics_eq.
  destruct (cleaned_sales w) as [table |]; [| discriminate].
  intros [= _ H]. now exists table.
Qed.

(** One run of the script, as a function of the source file and of the
    document found on disk. *)
Lemma main_eq (df : list Raw.row) (w : world) :
  main df w =
  match mapM clean_row df with
  | Err e =>
      ({| raw_sales := Some df; cleaned_sales := None;
          dashboard_data := dashboard_data w |}, Err e)
  | Ok cleaned =>
      match run_queries cleaned with
      | Err e =>
          ({| raw_sales := Some df; cleaned_sales := Some cleaned;
              dashboard_data := dashboard_data w |}, Err e)
      | Ok a =>
          match build_data a with
          | Err e =>
              ({| raw_sales := Some df; cleaned_sales := Some cleaned;
                  dashboard_data := dashboard_data w |}, Err e)
          | Ok data =>
              ({| raw_sales := Some df; cleaned_sales := Some cleaned;
                  dashboard_data := Some data |},
               match iloc0 (category_df a) with
               | Ok _ => Ok tt
               | Err e => Err e
               end)
          end
      end
  end.
Proof.
  unfold main. unfold seq at 1. cbn [create_database].
  unfold seq at 1. rewrite clean_data_eq. cbn [raw_sales dashboard_data].
  destruct (mapM clean_row df) as [cleaned |]; [| reflexivity].
  unfold seq at 1. rewrite generate_analytics_eq. cbn [cleaned_sales].
  destruct (run_queries cleaned) as [a |]; [| reflexivity].
  unfold export_to_json, seq, lift, json_dump, ret.
  cbn [raw_sales cleaned_sales dashboard_data].
  destruct (build_data a) as [data |]; [| reflexivity].
  now destruct (iloc0 (category_df a)).
Qed.
End PipelineLemmas.

(** C2, as stated: a source file with a header and no rows is processed to
    the end and a document with total_orders 0 and a defined
    avg_order_value is written.  This fails: the run ends with the
    TypeError of [float(None)] and no document exists. *)
Lemma empty_source_counterexample :
  main [] Sample.empty_world
  = ({| raw_sales := Some []; cleaned_sales := Some []; dashboard_data := None |},
     Err TypeError).
Proof. reflexivity. Qed.

(** C2, amended: on a source file with a header and no rows the five
    queries succeed, with empty frames and a summary whose total_orders is
    0 and whose total_revenue and avg_order_value are NULL;
    [export_to_json] then raises TypeError on [float(None)], the run ends
    there and no document is written. *)
Theorem empty_source_raises (w : world) :
  let loaded := {| raw_sales := Some []; cleaned_sales := Some [];
                   dashboard_data := dashboard_data w |} in
  let views := {| category_df := []; regional_df := []; daily_df := [];
                  product_df := [];
                  summary := {| Summary.total_revenue := None;
                                Summary.total_orders := 0;
                                Summary.total_customers := 0;
                                Summary.avg_order_value := None |} |} in
  generate_analytics loaded = (loaded, Ok views)
  /\ build_data views = Err TypeError
  /\ main [] w = (loaded, Err TypeError).
Proof. repeat split. Qed.

(** C8: a second run on the same source file, started from whatever the
    first run left behind, ends in the same way and leaves the same files;
    the outcome of a run and the document it writes do not depend on the
    files found at the start. *)
Theorem pipeline_idempotent (df : list Raw.row) (w : world) :
  main df (fst (main df w)) = main df w
  /\ forall w',
       snd (main df w') = snd (main df w)
       /\ (snd (main df w) = Ok tt ->
           dashboard_data (fst (main df w')) = dashboard_data (fst (main df w))
           /\ dashboard_data (fst (main df w)) <> None).
Proof.
  split; [| intros w']; rewrite !main_eq;
    destruct (mapM clean_row df) as [cleaned | e]; cbn [fst snd dashboard_data];
    try (split; [reflexivity | discriminate]); try reflexivity;
    destruct (run_queries cleaned) as [a | e]; cbn [fst snd dashboard_data];
    try (split; [reflexivity | discriminate]); try reflexivity;
    destruct (build_data a) as [data | e]; cbn [fst snd dashboard_data];
    try (split; [reflexivity | discriminate]); try reflexivity.
  split; [reflexivity |]. intros _. split; [reflexivity | discriminate].
Qed.

Lemma pipeline_idempotent_witness :
  snd (main [Sample.raw1; Sample.raw2] Sample.empty_world) = Ok tt
  /\ dashboard_data (fst (main [Sample.raw1; Sample.raw2] Sample.loaded_world))
     = dashboard_data (fst (main [Sample.raw1; Sample.raw2] Sample.empty_world)).
Proof.
  destruct (pipeline_idempotent [Sample.raw1; Sample.raw2] Sample.empty_world)
    as [_ H].
  destruct (H Sample.loaded_world) as [_ H'].
  assert (Hok : snd (main [Sample.raw1; Sample.raw2] Sample.empty_world) = Ok tt)
    by (vm_compute; reflexivity).
  split; [exact Hok | exact (proj1 (H' Hok))].
Defined.

(** ** Claims about the Aggregator *)

Section ViewLemmas.

Lemma Ok_inj {A : Type} (a b : A) : Ok a = Ok b -> a = b.
Proof. now intros [= ->]. Qed.



End ViewLemmas.



(** * Further properties *)

(** ** [TRIM] *)

Section TrimLemmas.
Local Open Scope string_scope.

Lemma ltrim_no_leading_space (s : string) : starts_with_space (ltrim s) = false.
Proof.
  induction s as [| c s IH]; [reflexivity |].
  cbn [ltrim]. destruct (Ascii.eqb c space) eqn:E; [exact IH |].
  cbn. exact E.
Qed.

Lemma ltrim_decompose (s : string) : exists n, s = spaces n ++ ltrim s.
Proof.
  induction s as [| c s [n IH]]; [now exists 0%nat |].
  cbn [ltrim]. destruct (Ascii.eqb c space) eqn:E.
  - apply Ascii.eqb_eq in E. subst c. exists (S n). cbn. now rewrite <- IH.
  - now exists 0%nat.
Qed.

Lemma ltrim_fixed (s : string) : starts_with_space s = false -> ltrim s = s.
Proof. destruct s as [| c s]; [reflexivity |]. cbn. now intros ->. Qed.

Lemma rtrim_decompose (s : string) : exists m, s = rtrim s ++ spaces m.
Proof.
  induction s as [| c s [m IH]]; [now exists 0%nat |].
  cbn [rtrim]. destruct (rtrim s) as [| d t] eqn:Et; cbn [String.append] in IH.
  - destruct (Ascii.eqb c space) eqn:E.
    + apply Ascii.eqb_eq in E. subst c. exists (S m). cbn. congruence.
    + exists m. cbn. congruence.
  - exists m. cbn [String.append]. congruence.
Qed.

Lemma rtrim_no_trailing_space (s : string) : ends_with_space (rtrim s) = false.
Proof.
  induction s as [| c s IH]; [reflexivity |].
  cbn [rtrim]. destruct (rtrim s) as [| d t] eqn:Et.
  - destruct (Ascii.eqb c space) eqn:E; [reflexivity | cbn; exact E].
  - exact IH.
Qed.

Lemma rtrim_fixed (s : string) : ends_with_space s = false -> rtrim s = s.
Proof.
  induction s as [| c s IH]; [reflexivity |].
  cbn [ends_with_space rtrim]. destruct s as [| d t].
  - cbn. now intros ->.
  - intros H. rewrite (IH H). reflexivity.
Qed.

Lemma rtrim_keeps_first (s : string) :
  starts_with_space s = false -> starts_with_space (rtrim s) = false.
Proof.
  destruct s as [| c s]; [reflexivity |].
  cbn [starts_with_space rtrim]. intros E.
  destruct (rtrim s); [now rewrite E | exact E].
Qed.

(** A trimmed text has no space at either end, and trimming it again
    changes nothing. *)
Lemma trim_clean (s : string) :
  starts_with_space (rtrim (ltrim s)) = false
  /\ ends_with_space (rtrim (ltrim s)) = false
  /\ rtrim (ltrim (rtrim (ltrim s))) = rtrim (ltrim s).
Proof.
  assert (H1 : starts_with_space (rtrim (ltrim s)) = false)
    by apply rtrim_keeps_first, ltrim_no_leading_space.
  assert (H2 : ends_with_space (rtrim (ltrim s)) = false)
    by apply rtrim_no_trailing_space.
  repeat split; try assumption.
  rewrite (ltrim_fixed _ H1). now apply rtrim_fixed.
Qed.

Lemma trim_decompose (s : string) :
  exists n m, s = spaces n ++ rtrim (ltrim s) ++ spaces m.
Proof.
  destruct (ltrim_decompose s) as [n Hn].
  destruct (rtrim_decompose (ltrim s)) as [m Hm].
  exists n, m. now rewrite <- Hm.
Qed.

Lemma TRIM_idempotent (x : option string) : TRIM (TRIM x) = TRIM x.
Proof.
  destruct x as [s |]; [| reflexivity]. cbn.
  now destruct (trim_clean s) as (_ & _ & ->).
Qed.
End TrimLemmas.

(** C9, as stated: "NULL" surrounded by whitespace is trimmed to "NULL".
    This fails for whitespace other than the space character: [TRIM]
    strips spaces only, so "NULL" between two tabs keeps its tabs. *)
Lemma customer_name_tab_padded_counterexample :
  exists c,
    clean_row raw_tab_padded = Ok c
    /\ Raw.customer_name raw_tab_padded
       = Some (String tab ("NULL" ++ String tab ""))%string
    /\ Cleaned.customer_name c = Some (String tab ("NULL" ++ String tab ""))%string
    /\ Cleaned.customer_name c <> Some "NULL"%string.
Proof.
  eexists. split; [vm_compute; reflexivity |].
  repeat split. discriminate.
Qed.

(** C9, amended: the sentinel test on customer_name is an exact comparison
    made before trimming: only NULL and the exact text "NULL" become
    "Unknown Customer"; any other name has the space characters around it
    removed, so "NULL" padded with spaces becomes "NULL", and a name with
    no space at either end ("NULL" between tabs or newlines, for one) is
    kept as it is. *)
Theorem customer_name_sentinel_exact (r : Raw.row) (c : Cleaned.row) :
  clean_row r = Ok c ->
  (Raw.customer_name r = None \/ Raw.customer_name r = Some "NULL"%string ->
   Cleaned.customer_name c = Some "Unknown Customer"%string)
  /\ (forall s, Raw.customer_name r = Some s -> s <> "NULL"%string ->
                Cleaned.customer_name c = Some (rtrim (ltrim s)))
  /\ (forall n m, (0 < n + m)%nat ->
        Raw.customer_name r = Some (spaces n ++ "NULL" ++ spaces m)%string ->
        Cleaned.customer_name c = Some "NULL"%string)
  /\ (forall s, Raw.customer_name r = Some s -> s <> "NULL"%string ->
                starts_with_space s = false -> ends_with_space s = false ->
                Cleaned.customer_name c = Some s).
Proof.
  intros H. destruct (clean_row_inv r c H) as (q & t & _ & _ & ->).
  cbn [Cleaned.customer_name]. rewrite clean_customer_name_spec.
  split; [| split; [| split]].
  - intros [-> | ->]; reflexivity.
  - intros s -> Hs. apply String.eqb_neq in Hs. now rewrite Hs.
  - intros n m Hnm ->.
    assert (Hne : (spaces n ++ "NULL" ++ spaces m)%string <> "NULL"%string).
    { intros E. apply (f_equal String.length) in E.
      rewrite !string_length_app, !length_spaces in E. cbn in E. lia. }
    apply String.eqb_neq in Hne. rewrite Hne.
    rewrite ltrim_spaces.
    change (ltrim ("NULL" ++ spaces m)) with ("NULL" ++ spaces m)%string.
    now rewrite rtrim_app_spaces.
  - intros s -> Hs H1 H2. apply String.eqb_neq in Hs. rewrite Hs.
    now rewrite (ltrim_fixed s H1), (rtrim_fixed s H2).
Qed.

Lemma customer_name_sentinel_exact_witness :
  Cleaned.customer_name Sample.cleaned2 = Some "NULL"%string.
Proof.
  destruct (customer_name_sentinel_exact Sample.raw2 Sample.cleaned2 eq_refl)
    as (_ & _ & H & _).
  apply (H 2%nat 2%nat); [lia | reflexivity].
Defined.


(** ** The column rules applied twice *)

Section SecondPass.
Local Open Scope string_scope.

Lemma clean_category_idempotent (category : option string) :
  clean_category (clean_category category) = clean_category category.
Proof.
  rewrite (clean_category_spec category).
  destruct category as [s |]; [| reflexivity].
  destruct (Spec.eq_ignore_case s "electronics") eqn:E1; [reflexivity |].
  destruct (Spec.eq_ignore_case s "furniture") eqn:E2; [reflexivity |].
  destruct (Spec.eq_ignore_case s "stationery") eqn:E3; [reflexivity |].
  destruct (Spec.eq_ignore_case s "office") eqn:E4; [reflexivity |].
  rewrite clean_category_spec. now rewrite E1, E2, E3, E4.
Qed.

Lemma clean_order_date_idempotent (order_date : option string) :
  clean_order_date (clean_order_date order_date) = clean_order_date order_date.
Proof.
  rewrite (clean_order_date_spec order_date).
  destruct order_date as [s |]; [| reflexivity].
  destruct (Spec.contains_ignore_case "invalid" s) eqn:E; [reflexivity |].
  rewrite clean_order_date_spec. now rewrite E.
Qed.

Lemma clean_ship_date_spec (ship_date : option string) :
  clean_ship_date ship_date =
  match ship_date with
  | None => None
  | Some s => if String.eqb s "" then None else Some s
  end.
Proof.
  destruct ship_date as [s |]; [| reflexivity].
  unfold clean_ship_date. cbn. now destruct (String.eqb s "").
Qed.

Lemma clean_ship_date_idempotent (ship_date : option string) :
  clean_ship_date (clean_ship_date ship_date) = clean_ship_date ship_date.
Proof.
  rewrite (clean_ship_date_spec ship_date).
  destruct ship_date as [s |]; [| reflexivity].
  destruct (String.eqb s "") eqn:E; [reflexivity |].
  rewrite clean_ship_date_spec. now rewrite E.
Qed.

End SecondPass.

Section AbsLemmas.

Lemma Qle_bool_opp (r : Q) : Qle_bool 0 r = false -> Qle_bool 0 (- r) = true.
Proof.
  intros H. apply Qle_bool_iff.
  assert (Hr : (r <= 0)%Q).
  { apply Qnot_lt_le. intro Hlt. apply Qlt_le_weak in Hlt.
    apply Qle_bool_iff in Hlt. congruence. }
  lra.
Qed.

(** [ABS] leaves its own results alone. *)
Lemma ABS_idempotent (x y : option num) : ABS x = Ok y -> ABS y = Ok y.
Proof.
  destruct x as [[i | r] |]; cbn [ABS].
  - destruct (i <? 0) eqn:E.
    + destruct (i =? SMALLEST_INT64); [discriminate |].
      intros [= <-]. cbn [ABS]. apply Z.ltb_lt in E.
      assert (E' : (- i <? 0) = false) by (apply Z.ltb_ge; lia).
      now rewrite E'.
    + intros [= <-]. cbn [ABS]. now rewrite E.
  - intros [= <-]. cbn [ABS].
    destruct (Qle_bool 0 r) eqn:E.
    + now rewrite E.
    + now rewrite (Qle_bool_opp r E).
  - now intros [= <-].
Qed.
End AbsLemmas.

(** ** Further properties of the Cleaner *)

Section CleanerRun.

Lemma abs_overflows_iff (x : option num) :
  abs_overflows x = true <-> x = Some (NInt SMALLEST_INT64).
Proof.
  destruct x as [[i | r] |]; cbn; try (split; [discriminate | congruence]).
  rewrite Z.eqb_eq. split; congruence.
Qed.

Lemma clean_row_outcome (r : Raw.row) :
  (exists c, clean_row r = Ok c) \/ clean_row r = Err IntegerOverflow.
Proof.
  destruct (abs_overflows (Raw.quantity r)) eqn:E.
  - right. now apply clean_row_raises.
  - left. now apply clean_row_succeeds.
Qed.

Lemma mapM_clean_row_raises (rows : list Raw.row) (e : error) :
  mapM clean_row rows = Err e ->
  e = IntegerOverflow
  /\ Exists (fun r => Raw.quantity r = Some (NInt SMALLEST_INT64)) rows.
Proof.
  induction rows as [| r rows IH]; cbn [mapM]; [discriminate |].
  destruct (clean_row r) as [c | e'] eqn:Er; cbn [bind].
  - destruct (mapM clean_row rows) as [cs | e'']; cbn [bind]; [discriminate |].
    intros [= <-]. destruct (IH eq_refl) as [-> Hex]. split; [reflexivity |].
    now apply Exists_cons_tl.
  - intros [= <-].
    destruct (abs_overflows (Raw.quantity r)) eqn:E.
    + rewrite (clean_row_raises r E) in Er. injection Er as <-.
      split; [reflexivity |]. apply Exists_cons_hd. now apply abs_overflows_iff.
    + destruct (clean_row_succeeds r E) as [c Hc]. congruence.
Qed.

Lemma mapM_clean_row_overflow (rows : list Raw.row) :
  Exists (fun r => Raw.quantity r = Some (NInt SMALLEST_INT64)) rows ->
  mapM clean_row rows = Err IntegerOverflow.
Proof.
  induction 1 as [r rows Hr | r rows _ IH]; cbn [mapM].
  - apply abs_overflows_iff in Hr. now rewrite (clean_row_raises r Hr).
  - destruct (clean_row_outcome r) as [[c ->] | ->]; cbn [bind]; [| reflexivity].
    now rewrite IH.
Qed.

Lemma clean_row_order_id (r : Raw.row) (c : Cleaned.row) :
  clean_row r = Ok c -> Cleaned.order_id c = Raw.order_id r.
Proof. intros H. now destruct (clean_row_inv r c H) as (q & t & _ & _ & ->). Qed.

Lemma Forall2_map_eq {A B C : Type} (f : A -> C) (g : B -> C) (P : A -> B -> Prop)
  (l : list A) (l' : list B) :
  (forall a b, P a b -> g b = f a) -> Forall2 P l l' -> map g l' = map f l.
Proof.
  intros H. induction 1 as [| a b l l' Hab _ IH]; cbn [map]; [reflexivity |].
  now rewrite (H a b Hab), IH.
Qed.
End CleanerRun.

(** X1: the cleaned customer_name is never NULL and has no space at either
    end: it is "Unknown Customer" when the raw name is NULL or the text
    "NULL", and otherwise the raw name without the spaces around it. *)
Theorem customer_name_present_and_trimmed (r : Raw.row) (c : Cleaned.row) :
  clean_row r = Ok c ->
  exists name,
    Cleaned.customer_name c = Some name
    /\ starts_with_space name = false
    /\ ends_with_space name = false
    /\ match Raw.customer_name r with
       | None => name = "Unknown Customer"%string
       | Some s =>
           if String.eqb s "NULL" then name = "Unknown Customer"%string
           else exists n m, s = (spaces n ++ name ++ spaces m)%string
       end.
Proof.
  intros H. destruct (clean_row_inv r c H) as (q & t & _ & _ & ->).
  cbn [Cleaned.customer_name]. rewrite clean_customer_name_spec.
  destruct (Raw.customer_name r) as [s |].
  - destruct (String.eqb s "NULL").
    + eexists; repeat split.
    + exists (rtrim (ltrim s)). destruct (trim_clean s) as (H1 & H2 & _).
      repeat split; auto. destruct (trim_decompose s) as (n & m & Hs).
      now exists n, m.
  - eexists; repeat split.
Qed.

Lemma customer_name_present_and_trimmed_witness :
  exists name,
    Cleaned.customer_name Sample.cleaned2 = Some name
    /\ starts_with_space name = false
    /\ ends_with_space name = false
    /\ exists n m, "  NULL  "%string = (spaces n ++ name ++ spaces m)%string.
Proof.
  exact (customer_name_present_and_trimmed Sample.raw2 Sample.cleaned2 eq_refl).
Defined.

(** X2: the cleaned product_name is the raw one without the spaces around
    it: the raw text is some spaces, the cleaned text, some spaces; the
    cleaned text has no space at either end; NULL stays NULL. *)
Theorem product_name_trimmed (r : Raw.row) (c : Cleaned.row) :
  clean_row r = Ok c ->
  match Raw.product_name r with
  | None => Cleaned.product_name c = None
  | Some s =>
      exists t n m,
        Cleaned.product_name c = Some t
        /\ s = (spaces n ++ t ++ spaces m)%string
        /\ starts_with_space t = false
        /\ ends_with_space t = false
  end.
Proof.
  intros H. destruct (clean_row_inv r c H) as (q & t & _ & _ & ->).
  cbn [Cleaned.product_name].
  destruct (Raw.product_name r) as [s |]; [| reflexivity].
  destruct (trim_decompose s) as (n & m & Hs).
  destruct (trim_clean s) as (H1 & H2 & _).
  exists (rtrim (ltrim s)), n, m. cbn [TRIM option_map]. auto.
Qed.

Lemma product_name_trimmed_witness :
  exists t n m,
    Cleaned.product_name Sample.cleaned1 = Some t
    /\ " Laptop "%string = (spaces n ++ t ++ spaces m)%string
    /\ starts_with_space t = false
    /\ ends_with_space t = false.
Proof.
  exact (product_name_trimmed Sample.raw1 Sample.cleaned1 eq_refl).
Defined.

(** X3: no cleaned order_date contains "invalid", in any letter case. *)
Theorem order_date_never_invalid (r : Raw.row) (c : Cleaned.row) (s : string) :
  clean_row r = Ok c ->
  Cleaned.order_date c = Some s ->
  Spec.contains_ignore_case "invalid" s = false /\ Raw.order_date r = Some s.
Proof.
  intros H. destruct (clean_row_inv r c H) as (q & t & _ & _ & ->).
  cbn [Cleaned.order_date]. rewrite clean_order_date_spec.
  destruct (Raw.order_date r) as [s' |]; [| discriminate].
  destruct (Spec.contains_ignore_case "invalid" s') eqn:E; [discriminate |].
  intros [= <-]. auto.
Qed.

Lemma order_date_never_invalid_witness :
  Spec.contains_ignore_case "invalid" "2024-01-06" = false
  /\ Raw.order_date Sample.raw2 = Some "2024-01-06"%string.
Proof.
  exact (order_date_never_invalid Sample.raw2 Sample.cleaned2 _ eq_refl eq_refl).
Defined.

(** X4: the cleaned ship_date is NULL exactly when the raw one is NULL or
    the empty text; any other ship_date is kept as it is, so no cleaned
    ship_date is empty. *)
Theorem ship_date_never_empty (r : Raw.row) (c : Cleaned.row) :
  clean_row r = Ok c ->
  (Cleaned.ship_date c = None <->
   Raw.ship_date r = None \/ Raw.ship_date r = Some ""%string)
  /\ (forall s, Cleaned.ship_date c = Some s ->
                Raw.ship_date r = Some s /\ s <> ""%string).
Proof.
  intros H. destruct (clean_row_inv r c H) as (q & t & _ & _ & ->).
  cbn [Cleaned.ship_date]. rewrite clean_ship_date_spec.
  destruct (Raw.ship_date r) as [s |].
  - destruct (String.eqb_spec s "") as [-> | Hne].
    + split; [split; auto | discriminate].
    + split.
      * split; [discriminate | intros [? | [= ?]]; [discriminate | contradiction]].
      * intros s' [= <-]. auto.
  - split; [split; auto | discriminate].
Qed.

Lemma ship_date_never_empty_witness :
  Cleaned.ship_date Sample.cleaned1 = None.
Proof.
  destruct (ship_date_never_empty Sample.raw1 Sample.cleaned1 eq_refl) as [H _].
  apply H. right. reflexivity.
Defined.

(** X5: the cleaned quantity is the absolute value of the raw one, in the
    same storage class (INTEGER stays INTEGER, REAL stays REAL, NULL stays
    NULL), and is never negative. *)
Theorem quantity_absolute (r : Raw.row) (c : Cleaned.row) :
  clean_row r = Ok c ->
  match Raw.quantity r with
  | None => Cleaned.quantity c = None
  | Some (NInt i) =>
      Cleaned.quantity c = Some (NInt (Z.abs i)) /\ i <> SMALLEST_INT64
  | Some (NReal x) =>
      exists y, Cleaned.quantity c = Some (NReal y) /\ (y == Qabs x)%Q
  end
  /\ (forall n, Cleaned.quantity c = Some n -> (0 <= to_Q n)%Q).
Proof.
  intros H. destruct (clean_row_inv r c H) as (q & t & Hq & _ & ->).
  cbn [Cleaned.quantity]. split.
  - destruct (Raw.quantity r) as [[i | x] |]; cbn [ABS] in Hq.
    + destruct (i <? 0) eqn:E.
      * destruct (i =? SMALLEST_INT64) eqn:E'; [discriminate |].
        injection Hq as <-. apply Z.ltb_lt in E. apply Z.eqb_neq in E'.
        rewrite Z.abs_neq by lia. auto.
      * injection Hq as <-. apply Z.ltb_ge in E.
        rewrite Z.abs_eq by lia. split; [reflexivity |].
        unfold SMALLEST_INT64. lia.
    + destruct (ABS_value (NReal x) q) as (m & Hm & Hv); [exact Hq |].
      injection Hq as <-. eexists. split; [reflexivity |].
      injection Hm as <-. exact Hv.
    + now injection Hq as <-.
  - intros n ->. destruct (Raw.quantity r) as [k |]; [| discriminate].
    destruct (ABS_value k _ Hq) as (m & [= <-] & Hv).
    rewrite Hv. apply Qabs_nonneg.
Qed.

Lemma quantity_absolute_witness :
  Cleaned.quantity Sample.cleaned1 = Some (NInt 3).
Proof.
  destruct (quantity_absolute Sample.raw1 Sample.cleaned1 eq_refl) as [[H _] _].
  exact H.
Defined.

(** X7: cleaning a cleaned row again succeeds and changes nothing but the
    customer_name, and that only when it is the text "NULL" (left by a raw
    name that was "NULL" padded with spaces), which becomes
    "Unknown Customer". *)
Theorem second_cleaning_pass (r : Raw.row) (c : Cleaned.row) :
  clean_row r = Ok c ->
  exists c',
    clean_row (as_raw c) = Ok c'
    /\ Cleaned.customer_name c'
       = (if match Cleaned.customer_name c with
             | Some name => String.eqb name "NULL"
             | None => true
             end
          then Some "Unknown Customer"%string
          else Cleaned.customer_name c)
    /\ Cleaned.order_id c' = Cleaned.order_id c
    /\ Cleaned.customer_id c' = Cleaned.customer_id c
    /\ Cleaned.product_name c' = Cleaned.product_name c
    /\ Cleaned.category c' = Cleaned.category c
    /\ Cleaned.quantity c' = Cleaned.quantity c
    /\ Cleaned.price c' = Cleaned.price c
    /\ Cleaned.order_date c' = Cleaned.order_date c
    /\ Cleaned.ship_date c' = Cleaned.ship_date c
    /\ Cleaned.region c' = Cleaned.region c
    /\ Cleaned.payment_method c' = Cleaned.payment_method c
    /\ Cleaned.total_amount c' = Cleaned.total_amount c.
Proof.
  intros H. destruct (clean_row_inv r c H) as (q & t & Hq & Ht & ->).
  assert (Hround : t = ROUND (mul q (Raw.price r)) 2).
  { unfold clean_total_amount in Ht. rewrite Hq in Ht. cbn [bind] in Ht.
    now injection Ht as <-. }
  pose proof (ABS_idempotent _ _ Hq) as Hq'.
  unfold clean_row, clean_total_amount, as_raw.
  cbn [Raw.quantity Raw.price Raw.customer_name Raw.product_name Raw.category
       Raw.order_date Raw.ship_date Raw.order_id Raw.customer_id Raw.region
       Raw.payment_method Cleaned.quantity Cleaned.price Cleaned.customer_name
       Cleaned.product_name Cleaned.category Cleaned.order_date
       Cleaned.ship_date Cleaned.order_id Cleaned.customer_id Cleaned.region
       Cleaned.payment_method Cleaned.total_amount].
  rewrite Hq'. cbn [bind]. eexists. split; [reflexivity |].
  cbn [Cleaned.quantity Cleaned.price Cleaned.customer_name
       Cleaned.product_name Cleaned.category Cleaned.order_date
       Cleaned.ship_date Cleaned.order_id Cleaned.customer_id Cleaned.region
       Cleaned.payment_method Cleaned.total_amount].
  rewrite TRIM_idempotent, clean_category_idempotent, clean_order_date_idempotent,
    clean_ship_date_idempotent.
  repeat split; auto.
  rewrite (clean_customer_name_spec (clean_customer_name _)).
  rewrite (clean_customer_name_spec (Raw.customer_name r)).
  destruct (Raw.customer_name r) as [s |]; [| reflexivity].
  destruct (String.eqb s "NULL"); [reflexivity |].
  destruct (String.eqb (rtrim (ltrim s)) "NULL"); [reflexivity |].
  now destruct (trim_clean s) as (_ & _ & ->).
Qed.

Lemma second_cleaning_pass_witness :
  exists c',
    clean_row (as_raw Sample.cleaned2) = Ok c'
    /\ Cleaned.customer_name c' = Some "Unknown Customer"%string
    /\ Cleaned.total_amount c' = Cleaned.total_amount Sample.cleaned2.
Proof.
  destruct (second_cleaning_pass Sample.raw2 Sample.cleaned2 eq_refl)
    as (c' & H1 & H2 & H).
  exists c'. split; [exact H1 |]. split; [exact H2 |].
  decompose [and] H. assumption.
Defined.

(** X8: [clean_data] fails in two cases only: raw_sales is missing (no such
    table) or some quantity is the smallest 64-bit integer (integer
    overflow), and a quantity of that value always makes it fail.  After a
    failure there is no cleaned table at all, even if one existed before. *)
Theorem clean_data_failure (w : world) :
  (forall w' e, clean_data w = (w', Err e) ->
     cleaned_sales w' = None
     /\ ((raw_sales w = None /\ e = NoSuchTable "raw_sales")
         \/ (exists rows,
               raw_sales w = Some rows /\ e = IntegerOverflow
               /\ Exists (fun r => Raw.quantity r = Some (NInt SMALLEST_INT64)) rows)))
  /\ (forall rows,
        raw_sales w = Some rows ->
        Exists (fun r => Raw.quantity r = Some (NInt SMALLEST_INT64)) rows ->
        snd (clean_data w) = Err IntegerOverflow).
Proof.
  rewrite clean_data_eq. split.
  - intros w' e. destruct (raw_sales w) as [rows |].
    + destruct (mapM clean_row rows) as [cs | e'] eqn:E; [discriminate |].
      intros [= <- <-]. split; [reflexivity |]. right.
      destruct (mapM_clean_row_raises rows e' E) as [-> Hex].
      now exists rows.
    + intros [= <- <-]. split; [reflexivity |]. now left.
  - intros rows -> Hex. now rewrite (mapM_clean_row_overflow rows Hex).
Qed.

Lemma clean_data_failure_witness :
  snd (clean_data
         {| raw_sales :=
              Some [{| Raw.order_id := VNull; Raw.customer_id := VNull;
                       Raw.customer_name := None; Raw.product_name := None;
                       Raw.category := None;
                       Raw.quantity := Some (NInt SMALLEST_INT64);
                       Raw.price := None; Raw.order_date := None;
                       Raw.ship_date := None; Raw.region := VNull;
                       Raw.payment_method := VNull |}];
            cleaned_sales := Some [Sample.cleaned1];
            dashboard_data := None |})
  = Err IntegerOverflow.
Proof.
  eapply (proj2 (clean_data_failure _)); [reflexivity |].
  apply Exists_cons_hd. reflexivity.
Defined.

(** X9: a successful [clean_data] cleans the rows one by one and in order
    (the order_id column of the cleaned table is that of the raw table),
    leaves raw_sales and the output file as they were, and running it again
    gives the same tables. *)
Theorem clean_data_rowwise (w w' : world) :
  clean_data w = (w', Ok tt) ->
  exists rows cleaned,
    raw_sales w = Some rows
    /\ cleaned_sales w' = Some cleaned
    /\ Forall2 (fun r c => clean_row r = Ok c) rows cleaned
    /\ map Cleaned.order_id cleaned = map Raw.order_id rows
    /\ raw_sales w' = raw_sales w
    /\ dashboard_data w' = dashboard_data w
    /\ clean_data w' = (w', Ok tt).
Proof.
  rewrite clean_data_eq.
  destruct (raw_sales w) as [rows |]; [| discriminate].
  destruct (mapM clean_row rows) as [cs |] eqn:E; [| discriminate].
  intros [= <-]. exists rows, cs. apply mapM_Forall2 in E as HF.
  repeat split; auto.
  - apply (Forall2_map_eq _ _ _ _ _ clean_row_order_id HF).
  - rewrite clean_data_eq. cbn [raw_sales dashboard_data]. now rewrite E.
Qed.

Lemma clean_data_rowwise_witness :
  exists cleaned,
    cleaned_sales (fst (clean_data Sample.loaded_world)) = Some cleaned
    /\ map Cleaned.order_id cleaned = [VNum (NInt 1); VNum (NInt 2)].
Proof.
  destruct (clean_data_rowwise Sample.loaded_world
              (fst (clean_data Sample.loaded_world)) eq_refl)
    as (rows & cleaned & Hr & Hc & _ & Hid & _).
  exists cleaned. split; [exact Hc |].
  injection Hr as <-. exact Hid.
Defined.

(** ** More on the aggregates *)

Section AggregateLemmas.

Lemma SUM_error (col : list (option num)) (e : error) :
  SUM col = Err e -> e = IntegerOverflow.
Proof.
  unfold SUM, sumFinalize.
  destruct (0 <? cnt _); [| discriminate].
  destruct (approx _); [| discriminate].
  destruct (ovrfl _); [| discriminate].
  now intros [= <-].
Qed.

Lemma integer_total_nonneg (col : list (option num)) :
  Forall nonneg_integer col -> 0 <= integer_total col.
Proof.
  induction 1 as [| x col Hx _ IH]; cbn [integer_total]; [lia |].
  destruct x as [[i | r] |]; cbn in Hx; lia.
Qed.

Lemma fold_sumStep_bounded (col : list (option num)) (p : SumCtx) :
  Forall nonneg_integer col ->
  ovrfl p = false ->
  (approx p = false -> 0 <= iSum p /\ iSum p + integer_total col <= LARGEST_INT64) ->
  ovrfl (fold_left sumStep col p) = false.
Proof.
  intros Hcol; revert p; induction Hcol as [| x col Hx Hcol IH]; intros p Ho Hp;
    cbn [fold_left]; [assumption |].
  pose proof (integer_total_nonneg col Hcol) as Hrest.
  apply IH.
  - destruct x as [[i | r] |]; cbn [sumStep]; [| | assumption].
    + destruct (approx p) eqn:Ea; cbn [ovrfl]; [assumption |].
      destruct (fits_int64 (iSum p + i)) eqn:Ef; cbn [ovrfl]; [reflexivity |].
      destruct (Hp eq_refl) as [H0 H1].
      change (integer_total (Some (NInt i) :: col)) with (i + integer_total col) in H1.
      cbn in Hx.
      unfold fits_int64 in Ef.
      change LARGEST_INT64 with 9223372036854775807 in *.
      change SMALLEST_INT64 with (-9223372036854775808) in *.
      apply andb_false_iff in Ef as [Ef | Ef]; apply Z.leb_gt in Ef; exfalso; lia.
    + destruct (approx p); cbn [ovrfl]; [reflexivity | assumption].
  - destruct x as [[i | r] |]; cbn [sumStep].
    + destruct (approx p) eqn:Ea; cbn [approx]; [discriminate |].
      destruct (fits_int64 (iSum p + i)) eqn:Ef; cbn [approx iSum]; [| discriminate].
      intros _. destruct (Hp eq_refl) as [H0 H1].
      change (integer_total (Some (NInt i) :: col)) with (i + integer_total col) in H1.
      cbn in Hx. lia.
    + destruct (approx p); cbn [approx]; discriminate.
    + assumption.
Qed.

(** [SUM] does not raise on non-negative integers whose total fits in 64
    bits. *)
Lemma SUM_bounded (col : list (option num)) :
  Forall nonneg_integer col -> integer_total col <= LARGEST_INT64 ->
  exists s, SUM col = Ok s.
Proof.
  intros Hcol Hb. unfold SUM, sumFinalize.
  assert (Ho : ovrfl (fold_left sumStep col sum_init) = false).
  { apply fold_sumStep_bounded; [assumption | reflexivity |].
    intros _. cbn [sum_init iSum]. lia. }
  rewrite Ho. destruct (0 <? cnt _); [| now eexists].
  destruct (approx _); now eexists.
Qed.

Lemma integer_total_app (a b : list (option num)) :
  integer_total (a ++ b) = integer_total a + integer_total b.
Proof.
  induction a as [| [[i | r] |] a IH]; cbn [app integer_total]; lia.
Qed.

Lemma integer_total_perm (a b : list (option num)) :
  Permutation a b -> integer_total a = integer_total b.
Proof.
  induction 1 as [| x a b _ IH | x y a | a b c _ IH1 _ IH2].
  - reflexivity.
  - destruct x as [[i | r] |]; cbn [integer_total]; lia.
  - destruct x as [[i | r] |], y as [[j | t] |]; cbn [integer_total]; lia.
  - lia.
Qed.

(** The exact value and the NULL-ness of [AVG]. *)
Lemma AVG_spec (col : list (option num)) :
  match AVG col with
  | Some n =>
      0 < column_count col
      /\ (to_Q n == column_total col / inject_Z (column_count col))%Q
  | None => column_count col = 0
  end.
Proof.
  unfold AVG, avgFinalize.
  destruct (fold_sumStep col sum_init) as [Hv Hc].
  change (cnt sum_init) with 0 in Hc.
  unfold sum_value in Hv. cbn [sum_init approx rSum iSum] in Hv.
  set (p := fold_left sumStep col sum_init) in *.
  pose proof (column_count_nonneg col) as Hn.
  destruct (cnt p) as [| n | n] eqn:E; try lia.
  split; [lia |]. cbn [to_Q]. rewrite Hv.
  replace (column_count col) with (Z.pos n) by lia.
  change (inject_Z 0) with 0%Q. now rewrite Qplus_0_l.
Qed.

Lemma SUM_null_iff (col : list (option num)) (s : option num) :
  SUM col = Ok s -> (s = None <-> column_count col = 0).
Proof.
  intros H. apply SUM_spec in H. destruct s as [n |].
  - split; [discriminate | lia].
  - split; auto.
Qed.

Lemma distinct_step_length (seen : list value) (x : value) :
  (List.length seen <= List.length (distinct_step seen x) <= S (List.length seen))%nat.
Proof.
  unfold distinct_step.
  destruct x; try lia;
    destruct (existsb _ seen); rewrite ?length_app; cbn [List.length]; lia.
Qed.

Lemma fold_distinct_length (col seen : list value) :
  (List.length (fold_left distinct_step col seen)
   <= List.length seen + List.length col)%nat.
Proof.
  revert seen; induction col as [| x col IH]; intros seen; cbn [fold_left List.length].
  - lia.
  - specialize (IH (distinct_step seen x)).
    pose proof (distinct_step_length seen x). lia.
Qed.

(** [COUNT(DISTINCT x)] lies between 0 and the number of rows. *)
Lemma COUNT_DISTINCT_bounds (col : list value) :
  0 <= COUNT_DISTINCT col <= Z.of_nat (List.length col).
Proof.
  unfold COUNT_DISTINCT. pose proof (fold_distinct_length col []).
  cbn [List.length] in H. lia.
Qed.
End AggregateLemmas.

Section MoreGroupLemmas.
Context {R K : Type}.
Variable key : R -> K.
Variable cmp : K -> K -> comparison.

Lemma In_group_In_table (table : list R) (g : K * list R) (r : R) :
  In g (group_by key cmp table) -> In r (snd g) -> In r table.
Proof.
  intros Hg Hr. apply (Permutation_in r (group_by_perm key cmp table)).
  apply in_concat. exists (snd g). split; [now apply in_map | assumption].
Qed.

Lemma In_table_In_group (table : list R) (r : R) :
  In r table -> exists g, In g (group_by key cmp table) /\ In r (snd g).
Proof.
  intros Hr.
  apply (Permutation_in r (Permutation_sym (group_by_perm key cmp table))) in Hr.
  apply in_concat in Hr as (rows & Hrows & Hin).
  apply in_map_iff in Hrows as (g & <- & Hg). now exists g.
Qed.

Lemma group_by_length (table : list R) :
  List.length (List.concat (map snd (group_by key cmp table))) = List.length table.
Proof. apply Permutation_length, group_by_perm. Qed.


Lemma group_integer_total (q : R -> option num) (groups : list (K * list R))
  (g : K * list R) :
  Forall nonneg_integer (map q (List.concat (map snd groups))) ->
  In g groups ->
  integer_total (map q (snd g))
  <= integer_total (map q (List.concat (map snd groups))).
Proof.
  induction groups as [| g0 groups IH]; [intros _ [] |].
  cbn [map List.concat]. rewrite map_app, integer_total_app.
  intros Hall Hin. apply Forall_app in Hall as [H0 Hrest].
  pose proof (integer_total_nonneg _ H0).
  pose proof (integer_total_nonneg _ Hrest).
  destruct Hin as [<- | Hin]; [lia |].
  specialize (IH Hrest Hin). lia.
Qed.

(** The quantity column of a group sums to no more than that of the
    table. *)
Lemma group_quantity_bounded (q : R -> option num) (table : list R)
  (g : K * list R) :
  Forall nonneg_integer (map q table) ->
  In g (group_by key cmp table) ->
  Forall nonneg_integer (map q (snd g))
  /\ integer_total (map q (snd g)) <= integer_total (map q table).
Proof.
  intros Hall Hg. split.
  - apply Forall_forall. intros x Hx. apply in_map_iff in Hx as (r & <- & Hr).
    rewrite Forall_forall in Hall. apply Hall, in_map.
    eapply In_group_In_table; eauto.
  - pose proof (Permutation_map q (group_by_perm key cmp table)) as Hp.
    rewrite <- (integer_total_perm _ _ Hp).
    apply group_integer_total; [| assumption].
    eapply Permutation_Forall; [symmetry; exact Hp | assumption].
Qed.

Hypothesis cmp_eq : forall a b, cmp a b = Eq <-> a = b.
Hypothesis cmp_antisym : forall a b, cmp a b = CompOpp (cmp b a).
Hypothesis cmp_trans : forall a b c, cmp a b = Lt -> cmp b c = Lt -> cmp a c = Lt.

(** [GROUP BY] returns the groups in strictly ascending key order. *)
Lemma group_by_sorted (table : list R) :
  StronglySorted (key_lt cmp) (group_by key cmp table).
Proof.
  destruct (fold_add_to_group key cmp cmp_eq cmp_antisym cmp_trans table [])
    as (H & _); [constructor | constructor |]. exact H.
Qed.

Lemma group_member_key (table : list R) (k : K) (rows : list R) (r : R) :
  In (k, rows) (group_by key cmp table) -> In r rows -> key r = k.
Proof.
  intros Hg Hr.
  destruct (group_by_spec key cmp cmp_eq cmp_antisym cmp_trans table) as [_ H].
  destruct (H k rows Hg) as [-> _].
  apply filter_In in Hr as [_ Hr]. unfold in_group in Hr.
  destruct (cmp (key r) k) eqn:E; try discriminate. now apply cmp_eq.
Qed.

(** The keys of the groups are the keys of the table. *)
Lemma group_by_keys (table : list R) (k : K) :
  In k (map fst (group_by key cmp table)) <-> In k (map key table).
Proof.
  destruct (group_by_spec key cmp cmp_eq cmp_antisym cmp_trans table) as [_ H].
  split.
  - intros Hk. apply in_map_iff in Hk as ([k' rows] & <- & Hg). cbn [fst].
    destruct (H k' rows Hg) as [Hrows Hne].
    destruct rows as [| r rows]; [contradiction |].
    assert (Hr : In r (r :: rows)) by now left.
    rewrite <- (group_member_key table k' (r :: rows) r Hg Hr).
    apply in_map. eapply (In_group_In_table table (k', r :: rows)); eauto.
  - intros Hk. apply in_map_iff in Hk as (r & <- & Hr).
    destruct (In_table_In_group table r Hr) as ([k' rows] & Hg & Hin).
    cbn [snd] in Hin. rewrite (group_member_key table k' rows r Hg Hin).
    apply in_map_iff. now exists (k', rows).
Qed.
End MoreGroupLemmas.

Section MoreOrderLemmas.
Context {R : Type}.
Variable precedes : R -> R -> bool.

(** Sorting a list that is already in order returns it unchanged. *)
Lemma order_by_sorted_input (l : list R) :
  Sorted (fun a b => precedes a b = true) l -> order_by precedes l = l.
Proof.
  induction 1 as [| a l Hs IH Hhd]; [reflexivity |].
  cbn [order_by fold_right]. fold (order_by precedes l). rewrite IH.
  destruct Hhd as [| b l' Hab]; cbn [insert_row]; [reflexivity |].
  now rewrite Hab.
Qed.
End MoreOrderLemmas.

Lemma Sorted_weaken {A : Type} (R R' : A -> A -> Prop) (l : list A) :
  (forall x y, R x y -> R' x y) -> Sorted R l -> Sorted R' l.
Proof.
  intros HR. induction 1 as [| a l Hs IH Hhd]; constructor; [assumption |].
  destruct Hhd; constructor. now apply HR.
Qed.

Lemma count_total_perm (a b : list Z) :
  Permutation a b -> count_total a = count_total b.
Proof.
  unfold count_total.
  induction 1 as [| x a b _ IH | x y a | a b c _ IH1 _ IH2]; cbn [fold_right]; lia.
Qed.

(** The per-group row counts add up to the size of the grouped table. *)
Lemma count_total_groups {K V : Type} (mk : K * list Cleaned.row -> result V)
  (count : V -> Z) (groups : list (K * list Cleaned.row)) (vs : list V) :
  (forall g v, mk g = Ok v -> count v = COUNT (snd g)) ->
  Forall2 (fun g v => mk g = Ok v) groups vs ->
  count_total (map count vs)
  = Z.of_nat (List.length (List.concat (map snd groups))).
Proof.
  intros Hcount. induction 1 as [| g v groups vs Hg _ IH];
    cbn [map List.concat count_total fold_right]; [reflexivity |].
  fold (count_total (map count vs)).
  rewrite IH, (Hcount g v Hg), length_app. unfold COUNT. lia.
Qed.

(** ** The rows of the views *)

Section ViewRows.

Lemma category_row_inv (g : option string * list Cleaned.row) (v : Category.row) :
  category_row g = Ok v ->
  Category.category v = fst g
  /\ Category.total_orders v = COUNT (snd g)
  /\ SUM (map Cleaned.quantity (snd g)) = Ok (Category.total_units_sold v).
Proof.
  unfold category_row.
  destruct (SUM (map Cleaned.quantity (snd g))) as [u |]; cbn [bind]; [| discriminate].
  destruct (SUM (map Cleaned.total_amount (snd g))) as [s |]; cbn [bind]; [| discriminate].
  intros [= <-]. repeat split.
Qed.

Lemma regional_row_inv (g : value * list Cleaned.row) (v : Regional.row) :
  regional_row g = Ok v ->
  Regional.region v = fst g
  /\ Regional.total_orders v = COUNT (snd g)
  /\ Regional.unique_customers v = COUNT_DISTINCT (map Cleaned.customer_id (snd g)).
Proof.
  unfold regional_row.
  destruct (SUM (map Cleaned.total_amount (snd g))) as [s |]; cbn [bind]; [| discriminate].
  intros [= <-]. repeat split.
Qed.

Lemma daily_row_inv (g : option string * list Cleaned.row) (v : Daily.row) :
  daily_row g = Ok v ->
  Daily.order_date v = fst g
  /\ Daily.orders v = COUNT (snd g)
  /\ exists s, SUM (map Cleaned.total_amount (snd g)) = Ok s
               /\ Daily.revenue v = ROUND s 2.
Proof.
  unfold daily_row.
  destruct (SUM (map Cleaned.total_amount (snd g))) as [s |]; cbn [bind]; [| discriminate].
  intros [= <-]. repeat split. now exists s.
Qed.

Lemma mapM_error {A B : Type} (f : A -> result B) (P : error -> Prop)
  (l : list A) (e : error) :
  (forall a e', f a = Err e' -> P e') -> mapM f l = Err e -> P e.
Proof.
  intros Hf. induction l as [| a l IH]; cbn [mapM]; [discriminate |].
  destruct (f a) as [b | e'] eqn:Ea; cbn [bind].
  - destruct (mapM f l) as [bs | e'']; cbn [bind]; [discriminate |].
    intros [= <-]. now apply IH.
  - intros [= <-]. eapply Hf; eauto.
Qed.

Lemma category_row_error g e : category_row g = Err e -> e = IntegerOverflow.
Proof.
  unfold category_row.
  destruct (SUM (map Cleaned.quantity (snd g))) as [u | e1] eqn:E1; cbn [bind].
  - destruct (SUM (map Cleaned.total_amount (snd g))) as [s | e2] eqn:E2;
      cbn [bind]; [discriminate |].
    intros [= <-]. eapply SUM_error; eauto.
  - intros [= <-]. eapply SUM_error; eauto.
Qed.

Lemma regional_row_error g e : regional_row g = Err e -> e = IntegerOverflow.
Proof.
  unfold regional_row.
  destruct (SUM (map Cleaned.total_amount (snd g))) as [s | e2] eqn:E2;
    cbn [bind]; [discriminate |].
  intros [= <-]. eapply SUM_error; eauto.
Qed.

Lemma daily_row_error g e : daily_row g = Err e -> e = IntegerOverflow.
Proof.
  unfold daily_row.
  destruct (SUM (map Cleaned.total_amount (snd g))) as [s | e2] eqn:E2;
    cbn [bind]; [discriminate |].
  intros [= <-]. eapply SUM_error; eauto.
Qed.

Lemma product_row_error g e : product_row g = Err e -> e = IntegerOverflow.
Proof.
  unfold product_row.
  destruct (SUM (map Cleaned.quantity (snd g))) as [u | e1] eqn:E1; cbn [bind].
  - destruct (SUM (map Cleaned.total_amount (snd g))) as [s | e2] eqn:E2;
      cbn [bind]; [discriminate |].
    intros [= <-]. eapply SUM_error; eauto.
  - intros [= <-]. eapply SUM_error; eauto.
Qed.

(** The queries fail with an integer overflow or not at all. *)
Lemma run_queries_error (table : list Cleaned.row) (e : error) :
  run_queries table = Err e -> e = IntegerOverflow.
Proof.
  unfold run_queries.
  destruct (category_query table) as [c | e1] eqn:E1; cbn [bind].
  2:{ intros [= <-]. unfold category_query in E1.
      destruct (mapM category_row _) as [vs | e'] eqn:Em; cbn [bind] in E1;
        [discriminate |].
      injection E1 as <-.
      exact (mapM_error _ _ _ _ category_row_error Em). }
  destruct (regional_query table) as [r | e2] eqn:E2; cbn [bind].
  2:{ intros [= <-]. unfold regional_query in E2.
      destruct (mapM regional_row _) as [vs | e'] eqn:Em; cbn [bind] in E2;
        [discriminate |].
      injection E2 as <-.
      exact (mapM_error _ _ _ _ regional_row_error Em). }
  destruct (daily_query table) as [d | e3] eqn:E3; cbn [bind].
  2:{ intros [= <-]. unfold daily_query in E3.
      destruct (mapM daily_row _) as [vs | e'] eqn:Em; cbn [bind] in E3;
        [discriminate |].
      injection E3 as <-.
      exact (mapM_error _ _ _ _ daily_row_error Em). }
  destruct (product_query table) as [p | e4] eqn:E4; cbn [bind].
  2:{ intros [= <-]. unfold product_query in E4.
      destruct (mapM product_row _) as [vs | e'] eqn:Em; cbn [bind] in E4;
        [discriminate |].
      injection E4 as <-.
      exact (mapM_error _ _ _ _ product_row_error Em). }
  destruct (summary_query table) as [sm | e5] eqn:E5; cbn [bind]; [discriminate |].
  intros [= <-]. unfold summary_query in E5.
  destruct (SUM (map Cleaned.total_amount table)) as [s | e'] eqn:Es;
    cbn [bind] in E5; [discriminate |].
  injection E5 as <-. eapply SUM_error; eauto.
Qed.

Lemma group_by_groups_nonempty {R K : Type} (key : R -> K)
  (cmp : K -> K -> comparison) (table : list R) :
  Forall (fun g => snd g <> []) (group_by key cmp table).
Proof.
  unfold group_by.
  assert (H : forall gs, Forall (fun g : K * list R => snd g <> []) gs ->
                         Forall (fun g => snd g <> [])
                           (fold_left (fun g r => add_to_group key cmp r g) table gs)).
  { induction table as [| r table IH]; intros gs Hgs; cbn [fold_left]; [assumption |].
    apply IH. now apply add_to_group_nonempty. }
  apply H. constructor.
Qed.

(** Every group holds at least one row, and its key is the key of its
    first row. *)
Lemma group_by_first_key {R K : Type} (key : R -> K)
  (cmp : K -> K -> comparison) (table : list R) :
  Forall (fun g => exists r rows, snd g = r :: rows /\ key r = fst g)
    (group_by key cmp table).
Proof.
  unfold group_by.
  assert (Hadd : forall r gs,
             Forall (fun g : K * list R =>
                       exists r rows, snd g = r :: rows /\ key r = fst g) gs ->
             Forall (fun g => exists r rows, snd g = r :: rows /\ key r = fst g)
               (add_to_group key cmp r gs)).
  { intros r gs. induction 1 as [| [k rows] rest Hg Hall IH]; cbn [add_to_group].
    - repeat constructor. now exists r, [].
    - destruct (cmp (key r) k).
      + constructor; [| assumption].
        destruct Hg as (r0 & rows0 & Hrows & Hk). cbn [fst snd] in *. subst rows.
        now exists r0, (rows0 ++ [r]).
      + constructor; [now exists r, [] |]. now constructor.
      + now constructor. }
  assert (H : forall gs,
             Forall (fun g : K * list R =>
                       exists r rows, snd g = r :: rows /\ key r = fst g) gs ->
             Forall (fun g => exists r rows, snd g = r :: rows /\ key r = fst g)
               (fold_left (fun g r => add_to_group key cmp r g) table gs)).
  { induction table as [| r table IH]; intros gs Hgs; cbn [fold_left]; [assumption |].
    apply IH. now apply Hadd. }
  apply H. constructor.
Qed.

Lemma StronglySorted_Forall2 {A B : Type} (P : A -> B -> Prop)
  (ra : A -> A -> Prop) (rb : B -> B -> Prop) (l : list A) (l' : list B) :
  (forall a a' b b', P a b -> P a' b' -> ra a a' -> rb b b') ->
  Forall2 P l l' -> StronglySorted ra l -> StronglySorted rb l'.
Proof.
  intros Hrel. induction 1 as [| a b l l' Hab HF IH]; intros Hs; [constructor |].
  apply StronglySorted_inv in Hs as [Hs Hall].
  constructor; [now apply IH |].
  apply Forall_forall. intros b' Hb'.
  destruct (Forall2_In_r _ _ _ _ HF Hb') as (a' & Ha' & Hab').
  rewrite Forall_forall in Hall. eapply Hrel; eauto.
Qed.

Lemma column_count_zero_iff (col : list (option num)) :
  column_count col = 0 <-> Forall (fun x => x = None) col.
Proof.
  induction col as [| [n |] col IH]; cbn [column_count].
  - split; [constructor | reflexivity].
  - pose proof (column_count_nonneg col) as Hn. split; [lia |].
    intros Hall. inversion Hall. discriminate.
  - rewrite IH. split; [now constructor | intros Hall; now inversion Hall].
Qed.
End ViewRows.

(** ** Further properties of the Aggregator *)

(** X10: the category view is in descending order of revenue, has exactly
    one row for each category that occurs in the cleaned table (NULL
    included), each row counts the orders of its category, and the counts
    add up to the number of rows of the table. *)
Theorem category_view_covers_table (w w' : world) (a : analytics)
  (table : list Cleaned.row) :
  cleaned_sales w = Some table ->
  generate_analytics w = (w', Ok a) ->
  StronglySorted
    (fun p q => amount_ge (Category.total_revenue p) (Category.total_revenue q))
    (category_df a)
  /\ NoDup (map Category.category (category_df a))
  /\ (forall cat, In cat (map Category.category (category_df a))
                  <-> In cat (map Cleaned.category table))
  /\ (forall v, In v (category_df a) ->
        0 < Category.total_orders v
        /\ Category.total_orders v
           = COUNT (filter (in_group Cleaned.category text_compare
                              (Category.category v)) table))
  /\ count_total (map Category.total_orders (category_df a))
     = Z.of_nat (List.length table).
Proof.
  intros Ht H. destruct (generate_analytics_inv _ _ _ H) as (table' & Ht' & Hq).
  rewrite Ht in Ht'. injection Ht' as <-.
  apply run_queries_inv in Hq as (Hc & _).
  unfold category_query in Hc.
  destruct (mapM category_row _) as [vs |] eqn:Hvs; cbn [bind] in Hc; [| discriminate].
  apply Ok_inj in Hc. rewrite <- Hc. apply mapM_Forall2 in Hvs.
  set (groups := group_by Cleaned.category text_compare table) in *.
  assert (Hperm : Permutation
                    (order_by (descending amount_compare Category.total_revenue) vs) vs)
    by apply order_by_perm.
  assert (Hkeys : map Category.category vs = map fst groups).
  { apply (Forall2_map_eq fst Category.category _ _ _
             (fun g v Hg => proj1 (category_row_inv g v Hg)) Hvs). }
  destruct (group_by_spec Cleaned.category text_compare
              text_compare_eq text_compare_antisym text_compare_trans table)
    as [Hnodup Hgroups].
  fold groups in Hnodup, Hgroups.
  split; [apply order_by_descending |].
  split.
  { apply (Permutation_NoDup (l := map Category.category vs)).
    - symmetry. now apply Permutation_map.
    - now rewrite Hkeys. }
  split.
  { intros cat. rewrite (Permutation_in' (eq_refl cat)
                           (Permutation_map Category.category Hperm)).
    rewrite Hkeys. unfold groups.
    apply (group_by_keys Cleaned.category text_compare
             text_compare_eq text_compare_antisym text_compare_trans). }
  split.
  { intros v Hv. apply (Permutation_in _ Hperm) in Hv.
    destruct (Forall2_In_r _ _ _ _ Hvs Hv) as ([k rows] & Hin & Hrow).
    destruct (category_row_inv _ _ Hrow) as (Hk & Hn & _). cbn [fst snd] in Hk, Hn.
    destruct (Hgroups k rows Hin) as [Hrows Hne].
    rewrite Hn, Hk, <- Hrows. split; [| reflexivity].
    unfold COUNT. destruct rows; [contradiction | cbn [List.length]; lia]. }
  rewrite (count_total_perm _ _ (Permutation_map Category.total_orders Hperm)).
  rewrite (count_total_groups category_row Category.total_orders groups vs
             (fun g v Hg => proj1 (proj2 (category_row_inv g v Hg))) Hvs).
  unfold groups. now rewrite group_by_length.
Qed.

Lemma category_view_covers_table_witness :
  exists a,
    generate_analytics Sample.loaded_world = (Sample.loaded_world, Ok a)
    /\ NoDup (map Category.category (category_df a))
    /\ count_total (map Category.total_orders (category_df a)) = 2.
Proof.
  assert (H : exists a, generate_analytics Sample.loaded_world
                        = (Sample.loaded_world, Ok a))
    by (eexists; vm_compute; reflexivity).
  destruct H as [a H]. exists a. split; [exact H |].
  destruct (category_view_covers_table Sample.loaded_world _ _
              [Sample.cleaned1; Sample.cleaned2] eq_refl H) as (_ & H1 & _ & _ & H2).
  split; assumption.
Defined.

(** X11: the regional view is in descending order of revenue; its order
    counts are positive and add up to the number of rows of the cleaned
    table; every region's unique_customers lies between 0 and its
    total_orders. *)
Theorem regional_view_counts (w w' : world) (a : analytics)
  (table : list Cleaned.row) :
  cleaned_sales w = Some table ->
  generate_analytics w = (w', Ok a) ->
  StronglySorted
    (fun p q => amount_ge (Regional.total_revenue p) (Regional.total_revenue q))
    (regional_df a)
  /\ count_total (map Regional.total_orders (regional_df a))
     = Z.of_nat (List.length table)
  /\ (forall v, In v (regional_df a) ->
        0 < Regional.total_orders v
        /\ 0 <= Regional.unique_customers v <= Regional.total_orders v
        /\ exists r, In r table /\ Cleaned.region r = Regional.region v).
Proof.
  intros Ht H. destruct (generate_analytics_inv _ _ _ H) as (table' & Ht' & Hq).
  rewrite Ht in Ht'. injection Ht' as <-.
  apply run_queries_inv in Hq as (_ & Hr & _).
  unfold regional_query in Hr.
  destruct (mapM regional_row _) as [vs |] eqn:Hvs; cbn [bind] in Hr; [| discriminate].
  apply Ok_inj in Hr. rewrite <- Hr. apply mapM_Forall2 in Hvs.
  set (groups := group_by Cleaned.region value_compare table) in *.
  assert (Hperm : Permutation
                    (order_by (descending amount_compare Regional.total_revenue) vs) vs)
    by apply order_by_perm.
  split; [apply order_by_descending |].
  split.
  { rewrite (count_total_perm _ _ (Permutation_map Regional.total_orders Hperm)).
    rewrite (count_total_groups regional_row Regional.total_orders groups vs
               (fun g v Hg => proj1 (proj2 (regional_row_inv g v Hg))) Hvs).
    unfold groups. now rewrite group_by_length. }
  intros v Hv. apply (Permutation_in _ Hperm) in Hv.
  destruct (Forall2_In_r _ _ _ _ Hvs Hv) as ([k rows] & Hin & Hrow).
  destruct (regional_row_inv _ _ Hrow) as (Hk & Hn & Hu). cbn [fst snd] in Hk, Hn, Hu.
  pose proof (group_by_first_key Cleaned.region value_compare table) as Hfirst.
  rewrite Forall_forall in Hfirst.
  destruct (Hfirst _ Hin) as (r & rest & Hrows & Hkey). cbn [fst snd] in Hrows, Hkey.
  subst rows.
  pose proof (COUNT_DISTINCT_bounds (map Cleaned.customer_id (r :: rest))) as Hb.
  rewrite length_map in Hb.
  rewrite Hn, Hu, Hk. unfold COUNT.
  split; [cbn [List.length]; lia |].
  split; [exact Hb |].
  exists r. split; [| exact Hkey].
  apply (In_group_In_table Cleaned.region value_compare table (k, r :: rest));
    [assumption | now left].
Qed.

Lemma regional_view_counts_witness :
  exists a,
    generate_analytics Sample.loaded_world = (Sample.loaded_world, Ok a)
    /\ count_total (map Regional.total_orders (regional_df a)) = 2.
Proof.
  assert (H : exists a, generate_analytics Sample.loaded_world
                        = (Sample.loaded_world, Ok a))
    by (eexists; vm_compute; reflexivity).
  destruct H as [a H]. exists a. split; [exact H |].
  destruct (regional_view_counts Sample.loaded_world _ _
              [Sample.cleaned1; Sample.cleaned2] eq_refl H) as (_ & H1 & _).
  exact H1.
Defined.

(** X12: the daily view has no NULL date, its dates are strictly ascending
    (so no date is repeated), they are exactly the non-NULL order dates of
    the cleaned table, and its order counts add up to the number of rows
    that have a date. *)
Theorem daily_view_ascending (w w' : world) (a : analytics)
  (table : list Cleaned.row) :
  cleaned_sales w = Some table ->
  generate_analytics w = (w', Ok a) ->
  StronglySorted date_lt (daily_df a)
  /\ Forall (fun d => Daily.order_date d <> None) (daily_df a)
  /\ (forall date, In (Some date) (map Daily.order_date (daily_df a))
                   <-> In (Some date) (map Cleaned.order_date table))
  /\ count_total (map Daily.orders (daily_df a))
     = Z.of_nat (List.length (filter has_order_date table)).
Proof.
  intros Ht H. destruct (generate_analytics_inv _ _ _ H) as (table' & Ht' & Hq).
  rewrite Ht in Ht'. injection Ht' as <-.
  apply run_queries_inv in Hq as (_ & _ & Hd & _).
  unfold daily_query in Hd.
  destruct (mapM daily_row _) as [vs |] eqn:Hvs; cbn [bind] in Hd; [| discriminate].
  apply Ok_inj in Hd. apply mapM_Forall2 in Hvs.
  set (dated := filter has_order_date table) in *.
  set (groups := group_by Cleaned.order_date text_compare dated) in *.
  assert (Hsorted : StronglySorted date_lt vs).
  { apply (StronglySorted_Forall2 (fun g v => daily_row g = Ok v)
             (key_lt text_compare) date_lt groups vs); [| assumption |].
    - intros g g' v v' Hg Hg' Hlt.
      destruct (daily_row_inv _ _ Hg) as (Hk & _).
      destruct (daily_row_inv _ _ Hg') as (Hk' & _).
      unfold date_lt. now rewrite Hk, Hk'.
    - apply (group_by_sorted Cleaned.order_date text_compare
               text_compare_eq text_compare_antisym text_compare_trans). }
  assert (Hid : order_by (ascending text_compare Daily.order_date) vs = vs).
  { apply order_by_sorted_input.
    apply (Sorted_weaken date_lt); [| now apply StronglySorted_Sorted].
    intros x y Hxy. unfold date_lt in Hxy. unfold ascending. now rewrite Hxy. }
  rewrite Hid in Hd. subst vs.
  assert (Hkeys : map Daily.order_date (daily_df a) = map fst groups).
  { apply (Forall2_map_eq fst Daily.order_date _ _ _
             (fun g v Hg => proj1 (daily_row_inv g v Hg)) Hvs). }
  assert (Hdates : forall k, In k (map fst groups)
                             <-> In k (map Cleaned.order_date dated)).
  { intros k. apply (group_by_keys Cleaned.order_date text_compare
                       text_compare_eq text_compare_antisym text_compare_trans). }
  split; [assumption |].
  split.
  { apply Forall_forall. intros d Hin Hnull.
    assert (Hk : In None (map fst groups)).
    { rewrite <- Hkeys, <- Hnull. now apply in_map. }
    apply Hdates in Hk. apply in_map_iff in Hk as (r & Hr & Hin').
    apply filter_In in Hin' as [_ Hdate]. unfold has_order_date in Hdate.
    now rewrite Hr in Hdate. }
  split.
  { intros date. rewrite Hkeys, Hdates. unfold dated. split.
    - intros Hin. apply in_map_iff in Hin as (r & Hr & Hin).
      apply filter_In in Hin as [Hin _]. rewrite <- Hr. now apply in_map.
    - intros Hin. apply in_map_iff in Hin as (r & Hr & Hin).
      rewrite <- Hr. apply in_map. apply filter_In. split; [assumption |].
      unfold has_order_date. now rewrite Hr. }
  rewrite (count_total_groups daily_row Daily.orders groups (daily_df a)
             (fun g v Hg => proj1 (proj2 (daily_row_inv g v Hg))) Hvs).
  unfold groups. now rewrite group_by_length.
Qed.

Lemma daily_view_ascending_witness :
  exists a,
    generate_analytics Sample.loaded_world = (Sample.loaded_world, Ok a)
    /\ StronglySorted date_lt (daily_df a)
    /\ count_total (map Daily.orders (daily_df a)) = 1.
Proof.
  assert (H : exists a, generate_analytics Sample.loaded_world
                        = (Sample.loaded_world, Ok a))
    by (eexists; vm_compute; reflexivity).
  destruct H as [a H]. exists a. split; [exact H |].
  destruct (daily_view_ascending Sample.loaded_world _ _
              [Sample.cleaned1; Sample.cleaned2] eq_refl H) as (H1 & _ & _ & H2).
  split; assumption.
Defined.



(** X14: in the summary total_orders is the number of rows of the cleaned
    table and total_customers lies between 0 and total_orders;
    total_revenue and avg_order_value are NULL together, and they are NULL
    when no row has a total_amount. *)
Theorem summary_counts (w w' : world) (a : analytics) (table : list Cleaned.row) :
  cleaned_sales w = Some table ->
  generate_analytics w = (w', Ok a) ->
  Summary.total_orders (summary a) = Z.of_nat (List.length table)
  /\ 0 <= Summary.total_customers (summary a) <= Summary.total_orders (summary a)
  /\ (Forall (fun r => Cleaned.total_amount r = None) table ->
      Summary.total_revenue (summary a) = None)
  /\ (Summary.avg_order_value (summary a) = None
      <-> Summary.total_revenue (summary a) = None).
Proof.
  intros Ht H. destruct (generate_analytics_inv _ _ _ H) as (table' & Ht' & Hq).
  rewrite Ht in Ht'. injection Ht' as <-.
  apply run_queries_inv in Hq as (_ & _ & _ & _ & Hs).
  unfold summary_query in Hs.
  destruct (SUM (map Cleaned.total_amount table)) as [tot |] eqn:Htot;
    cbn [bind] in Hs; [| discriminate].
  apply Ok_inj in Hs. rewrite <- Hs.
  cbn [Summary.total_orders Summary.total_customers Summary.total_revenue
       Summary.avg_order_value].
  pose proof (COUNT_DISTINCT_bounds (map Cleaned.customer_id table)) as Hb.
  rewrite length_map in Hb.
  pose proof (SUM_null_iff _ _ Htot) as Hnull.
  pose proof (AVG_spec (map Cleaned.total_amount table)) as Havg.
  assert (Hround : forall x, ROUND x 2 = None <-> x = None).
  { intros [n |]; cbn [ROUND]; split; congruence. }
  split; [reflexivity |]. split; [exact Hb |]. split.
  - intros Hall. apply Hround, Hnull, column_count_zero_iff.
    now apply Forall_map.
  - rewrite !Hround, Hnull.
    destruct (AVG (map Cleaned.total_amount table)) as [n |].
    + split; [discriminate | lia].
    + split; auto.
Qed.

Lemma summary_counts_witness :
  exists a,
    generate_analytics Sample.loaded_world = (Sample.loaded_world, Ok a)
    /\ Summary.total_orders (summary a) = 2.
Proof.
  assert (H : exists a, generate_analytics Sample.loaded_world
                        = (Sample.loaded_world, Ok a))
    by (eexists; vm_compute; reflexivity).
  destruct H as [a H]. exists a. split; [exact H |].
  destruct (summary_counts Sample.loaded_world _ _
              [Sample.cleaned1; Sample.cleaned2] eq_refl H) as (H1 & _).
  exact H1.
Defined.

(** X15: [generate_analytics] only reads: it leaves the tables and the
    output file as they are and its result depends on the cleaned table
    alone.  It fails when cleaned_sales does not exist (no such table) and
    otherwise only with an integer overflow of a SUM. *)
Theorem generate_analytics_read_only (w : world) :
  fst (generate_analytics w) = w
  /\ (forall w2, cleaned_sales w2 = cleaned_sales w ->
                 snd (generate_analytics w2) = snd (generate_analytics w))
  /\ (cleaned_sales w = None ->
      snd (generate_analytics w) = Err (NoSuchTable "cleaned_sales"))
  /\ (forall e, cleaned_sales w <> None ->
                snd (generate_analytics w) = Err e -> e = IntegerOverflow).
Proof.
  rewrite generate_analytics_eq. cbn [fst snd]. split; [reflexivity |].
  split; [| split].
  - intros w2 H2. rewrite generate_analytics_eq. cbn [snd]. now rewrite H2.
  - now intros ->.
  - intros e Hne. destruct (cleaned_sales w) as [table |]; [| contradiction].
    apply run_queries_error.
Qed.

Lemma generate_analytics_read_only_witness :
  snd (generate_analytics Sample.empty_world) = Err (NoSuchTable "cleaned_sales").
Proof.
  destruct (generate_analytics_read_only Sample.empty_world) as (_ & _ & H & _).
  apply H. reflexivity.
Defined.

(** ** When the queries and the export succeed *)

Section Success.

Lemma abs_integer_total_nonneg (col : list (option num)) :
  0 <= abs_integer_total col.
Proof.
  induction col as [| [[i | r] |] col IH]; cbn [abs_integer_total]; lia.
Qed.

Lemma bounded_quantities_do_not_overflow (df : list Raw.row) :
  abs_integer_total (map Raw.quantity df) <= LARGEST_INT64 ->
  Forall (fun r => abs_overflows (Raw.quantity r) = false) df.
Proof.
  induction df as [| r df IH]; cbn [map]; intros Hb; constructor.
  - destruct (Raw.quantity r) as [[i | x] |]; cbn [abs_overflows]; try reflexivity.
    change (abs_integer_total (Some (NInt i) :: map Raw.quantity df))
      with (Z.abs i + abs_integer_total (map Raw.quantity df)) in Hb.
    pose proof (abs_integer_total_nonneg (map Raw.quantity df)).
    apply Z.eqb_neq. intros ->.
    change LARGEST_INT64 with 9223372036854775807 in Hb.
    change (Z.abs SMALLEST_INT64) with 9223372036854775808 in Hb. lia.
  - apply IH. pose proof (Z.abs_nonneg 0).
    destruct (Raw.quantity r) as [[i | x] |]; try exact Hb.
    change (abs_integer_total (Some (NInt i) :: map Raw.quantity df))
      with (Z.abs i + abs_integer_total (map Raw.quantity df)) in Hb.
    pose proof (Z.abs_nonneg i). lia.
Qed.

Lemma clean_row_quantity_class (r : Raw.row) (c : Cleaned.row) :
  clean_row r = Ok c ->
  nonneg_integer (Cleaned.quantity c)
  /\ integer_total [Cleaned.quantity c] = abs_integer_total [Raw.quantity r]
  /\ real_or_null (Cleaned.total_amount c).
Proof.
  intros H. destruct (clean_row_inv r c H) as (q & t & Hq & Ht & ->).
  cbn [Cleaned.quantity Cleaned.total_amount].
  assert (Hreal : real_or_null t).
  { unfold clean_total_amount in Ht. rewrite Hq in Ht. cbn [bind] in Ht.
    injection Ht as <-. apply ROUND_real_or_null. }
  destruct (Raw.quantity r) as [[i | x] |]; cbn [ABS] in Hq.
  - destruct (i <? 0) eqn:E.
    + destruct (i =? SMALLEST_INT64); [discriminate |].
      injection Hq as <-. apply Z.ltb_lt in E. cbn. repeat split; try lia; assumption.
    + injection Hq as <-. apply Z.ltb_ge in E. cbn. repeat split; try lia; assumption.
  - injection Hq as <-. cbn. repeat split; assumption.
  - injection Hq as <-. cbn. repeat split; assumption.
Qed.

(** What the Cleaner writes can be summed whenever the absolute quantities
    of the source add up to a 64-bit integer. *)
Lemma cleaned_summable (df : list Raw.row) (cleaned : list Cleaned.row) :
  Forall2 (fun r c => clean_row r = Ok c) df cleaned ->
  abs_integer_total (map Raw.quantity df) <= LARGEST_INT64 ->
  summable cleaned.
Proof.
  intros HF Hb. unfold summable.
  assert (H : Forall nonneg_integer (map Cleaned.quantity cleaned)
              /\ integer_total (map Cleaned.quantity cleaned)
                 = abs_integer_total (map Raw.quantity df)
              /\ Forall real_or_null (map Cleaned.total_amount cleaned)).
  { clear Hb. induction HF as [| r c df cleaned Hrc _ IH]; cbn [map].
    - repeat split; constructor.
    - destruct IH as (I1 & I2 & I3).
      destruct (clean_row_quantity_class r c Hrc) as (H1 & H2 & H3).
      split; [now constructor |]. split; [| now constructor].
      change (Cleaned.quantity c :: map Cleaned.quantity cleaned)
        with ([Cleaned.quantity c] ++ map Cleaned.quantity cleaned).
      rewrite integer_total_app, H2, I2.
      destruct (Raw.quantity r) as [[i | x] |]; cbn [abs_integer_total]; lia. }
  destruct H as (H1 & H2 & H3). rewrite H2. auto.
Qed.

Lemma group_amount_sum {K : Type} (key : Cleaned.row -> K)
  (cmp : K -> K -> comparison) (table : list Cleaned.row)
  (g : K * list Cleaned.row) :
  Forall real_or_null (map Cleaned.total_amount table) ->
  In g (group_by key cmp table) ->
  exists s, SUM (map Cleaned.total_amount (snd g)) = Ok s.
Proof.
  intros Hall Hg.
  destruct (SUM_reals (map Cleaned.total_amount (snd g))) as (s & Hs & _);
    [| now exists s].
  apply Forall_forall. intros x Hx. apply in_map_iff in Hx as (r & <- & Hr).
  rewrite Forall_forall in Hall. apply Hall, in_map.
  eapply In_group_In_table; eauto.
Qed.

Lemma group_quantity_sum {K : Type} (key : Cleaned.row -> K)
  (cmp : K -> K -> comparison) (table : list Cleaned.row)
  (g : K * list Cleaned.row) :
  summable table ->
  In g (group_by key cmp table) ->
  exists u, SUM (map Cleaned.quantity (snd g)) = Ok u.
Proof.
  intros (H1 & H2 & _) Hg.
  destruct (group_quantity_bounded key cmp Cleaned.quantity table g H1 Hg)
    as [Hn Hb].
  apply SUM_bounded; [assumption | lia].
Qed.

(** On a summable table all five queries return. *)
Lemma run_queries_summable (table : list Cleaned.row) :
  summable table -> exists a, run_queries table = Ok a.
Proof.
  intros Hs. pose proof Hs as (_ & _ & Hreal).
  assert (Hc : exists v, category_query table = Ok v).
  { unfold category_query.
    destruct (mapM_total category_row
                (group_by Cleaned.category text_compare table)) as [vs Hvs].
    - apply Forall_forall. intros g Hg. unfold category_row.
      destruct (group_quantity_sum _ _ _ g Hs Hg) as [u ->].
      destruct (group_amount_sum _ _ _ g Hreal Hg) as [s ->].
      cbn [bind]. now eexists.
    - rewrite Hvs. cbn [bind]. now eexists. }
  assert (Hr : exists v, regional_query table = Ok v).
  { unfold regional_query.
    destruct (mapM_total regional_row
                (group_by Cleaned.region value_compare table)) as [vs Hvs].
    - apply Forall_forall. intros g Hg. unfold regional_row.
      destruct (group_amount_sum _ _ _ g Hreal Hg) as [s ->].
      cbn [bind]. now eexists.
    - rewrite Hvs. cbn [bind]. now eexists. }
  assert (Hd : exists v, daily_query table = Ok v).
  { unfold daily_query.
    destruct (mapM_total daily_row
                (group_by Cleaned.order_date text_compare
                   (filter has_order_date table))) as [vs Hvs].
    - apply Forall_forall. intros g Hg. unfold daily_row.
      destruct (group_amount_sum Cleaned.order_date text_compare
                  (filter has_order_date table) g) as [s ->];
        [| assumption | cbn [bind]; now eexists].
      apply Forall_forall. intros x Hx. apply in_map_iff in Hx as (r & <- & Hin).
      apply filter_In in Hin as [Hin _].
      rewrite Forall_forall in Hreal. now apply Hreal, in_map.
    - rewrite Hvs. cbn [bind]. now eexists. }
  assert (Hp : exists v, product_query table = Ok v).
  { unfold product_query.
    destruct (mapM_total product_row
                (group_by product_key pair_compare table)) as [vs Hvs].
    - apply Forall_forall. intros g Hg. unfold product_row.
      destruct (group_quantity_sum _ _ _ g Hs Hg) as [u ->].
      destruct (group_amount_sum _ _ _ g Hreal Hg) as [s ->].
      cbn [bind]. now eexists.
    - rewrite Hvs. cbn [bind]. now eexists. }
  assert (Hsum : exists v, summary_query table = Ok v).
  { unfold summary_query.
    destruct (SUM_reals _ Hreal) as (s & -> & _). cbn [bind]. now eexists. }
  destruct Hc as [c Hc], Hr as [r Hr], Hd as [d Hd], Hp as [p Hp], Hsum as [s Hsum].
  unfold run_queries. rewrite Hc, Hr, Hd, Hp, Hsum. cbn [bind]. now eexists.
Qed.

Lemma build_data_outcome (a : analytics) :
  match build_data a with
  | Ok data =>
      exists total average,
        Summary.total_revenue (summary a) = Some total
        /\ Summary.avg_order_value (summary a) = Some average
        /\ data = {| Json.summary_ :=
                       {| Json.total_revenue := to_Q total;
                          Json.total_orders := Summary.total_orders (summary a);
                          Json.total_customers := Summary.total_customers (summary a);
                          Json.avg_order_value := to_Q average |};
                     Json.category := category_df a;
                     Json.regional := regional_df a;
                     Json.daily := daily_df a;
                     Json.product := product_df a |}
  | Err e =>
      e = TypeError
      /\ (Summary.total_revenue (summary a) = None
          \/ Summary.avg_order_value (summary a) = None)
  end.
Proof.
  unfold build_data, float.
  destruct (Summary.total_revenue (summary a)) as [t |]; cbn [bind]; [| auto].
  destruct (Summary.avg_order_value (summary a)) as [v |]; cbn [bind]; [| auto].
  now exists t, v.
Qed.

Lemma summary_query_inv (table : list Cleaned.row) (s : Summary.row) :
  summary_query table = Ok s ->
  Summary.total_orders s = Z.of_nat (List.length table)
  /\ (Forall (fun r => Cleaned.total_amount r = None) table ->
      Summary.total_revenue s = None).
Proof.
  unfold summary_query.
  destruct (SUM (map Cleaned.total_amount table)) as [tot |] eqn:Htot;
    cbn [bind]; [| discriminate].
  intros Hs. apply Ok_inj in Hs. rewrite <- Hs.
  cbn [Summary.total_orders Summary.total_revenue].
  pose proof (SUM_null_iff _ _ Htot) as Hnull.
  split; [reflexivity |].
  intros Hall. assert (Htot' : tot = None).
  { apply Hnull, column_count_zero_iff. now apply Forall_map. }
  now rewrite Htot'.
Qed.



Lemma unpriced_total_amount (r : Raw.row) (c : Cleaned.row) :
  clean_row r = Ok c -> priced r = false -> Cleaned.total_amount c = None.
Proof.
  intros H Hp. destruct (clean_row_inv r c H) as (q & t & _ & Ht & ->).
  cbn [Cleaned.total_amount]. apply (clean_total_amount_null _ _ _ Ht).
  unfold priced in Hp.
  destruct (Raw.quantity r), (Raw.price r); auto; discriminate.
Qed.

(** Without a row that has a quantity and a price there is no amount. *)
Lemma unpriced_no_amount (df : list Raw.row) (cleaned : list Cleaned.row) :
  Forall2 (fun r c => clean_row r = Ok c) df cleaned ->
  existsb priced df = false ->
  Forall (fun c => Cleaned.total_amount c = None) cleaned.
Proof.
  induction 1 as [| r c df cleaned Hrc _ IH]; cbn [existsb]; [constructor |].
  intros Hp. apply orb_false_iff in Hp as [Hr Hdf].
  constructor; [now apply (unpriced_total_amount r c) | now apply IH].
Qed.
End Success.

(** ** Further properties of the export and of the script *)

(** X16: when the absolute values of the integer quantities of the raw
    table add up to at most 2^63 - 1, [clean_data] and then
    [generate_analytics] both return: no ABS and no SUM overflows. *)
Theorem analytics_return_when_quantities_fit (w : world) (df : list Raw.row) :
  raw_sales w = Some df ->
  abs_integer_total (map Raw.quantity df) <= LARGEST_INT64 ->
  exists cleaned a,
    let loaded := {| raw_sales := Some df;
                     cleaned_sales := Some cleaned;
                     dashboard_data := dashboard_data w |} in
    clean_data w = (loaded, Ok tt)
    /\ generate_analytics loaded = (loaded, Ok a).
Proof.
  intros Hraw Hb.
  destruct (mapM_total clean_row df) as [cleaned Hc].
  { eapply Forall_impl; [| exact (bounded_quantities_do_not_overflow df Hb)].
    intros r. apply clean_row_succeeds. }
  apply mapM_Forall2 in Hc as HF.
  destruct (run_queries_summable cleaned (cleaned_summable df cleaned HF Hb))
    as [a Ha].
  exists cleaned, a. cbn zeta. split.
  - rewrite clean_data_eq, Hraw, Hc. reflexivity.
  - rewrite generate_analytics_eq. cbn [cleaned_sales]. now rewrite Ha.
Qed.

Lemma analytics_return_when_quantities_fit_witness :
  exists cleaned a,
    clean_data Sample.loaded_world
    = ({| raw_sales := Some [Sample.raw1; Sample.raw2];
          cleaned_sales := Some cleaned;
          dashboard_data := None |}, Ok tt)
    /\ generate_analytics {| raw_sales := Some [Sample.raw1; Sample.raw2];
                             cleaned_sales := Some cleaned;
                             dashboard_data := None |}
       = ({| raw_sales := Some [Sample.raw1; Sample.raw2];
             cleaned_sales := Some cleaned;
             dashboard_data := None |}, Ok a).
Proof.
  apply (analytics_return_when_quantities_fit Sample.loaded_world
           [Sample.raw1; Sample.raw2] eq_refl).
  vm_compute. discriminate.
Defined.

(** X17: [export_to_json] raises TypeError exactly when the summary's
    total_revenue or avg_order_value is NULL, and then writes nothing;
    otherwise it writes and returns one document that carries the four
    frames unchanged and the summary's counts.  It never touches the
    tables. *)
Theorem export_to_json_outcome (a : analytics) (w : world) :
  raw_sales (fst (export_to_json a w)) = raw_sales w
  /\ cleaned_sales (fst (export_to_json a w)) = cleaned_sales w
  /\ match snd (export_to_json a w) with
     | Ok data =>
         dashboard_data (fst (export_to_json a w)) = Some data
         /\ Summary.total_revenue (summary a) <> None
         /\ Summary.avg_order_value (summary a) <> None
         /\ Json.total_orders (Json.summary_ data) = Summary.total_orders (summary a)
         /\ Json.total_customers (Json.summary_ data)
            = Summary.total_customers (summary a)
         /\ Json.category data = category_df a
         /\ Json.regional data = regional_df a
         /\ Json.daily data = daily_df a
         /\ Json.product data = product_df a
     | Err e =>
         e = TypeError
         /\ dashboard_data (fst (export_to_json a w)) = dashboard_data w
         /\ (Summary.total_revenue (summary a) = None
             \/ Summary.avg_order_value (summary a) = None)
     end.
Proof.
  unfold export_to_json, seq, lift, json_dump, ret.
  pose proof (build_data_outcome a) as Ho.
  destruct (build_data a) as [data | e]; cbn [fst snd raw_sales cleaned_sales
                                                dashboard_data].
  - destruct Ho as (t & v & Ht & Hv & ->). rewrite Ht, Hv.
    repeat split; discriminate.
  - destruct Ho as [-> Hnull]. repeat split. exact Hnull.
Qed.



(** X19: a source without any row that has both a quantity and a price
    (an empty source included) never gets through the script: no document
    is written, and when the absolute values of its integer quantities add
    up to at most 2^63 - 1 the run ends with the TypeError of the
    export. *)
Theorem script_fails_without_priced_row (df : list Raw.row) (w : world) :
  existsb priced df = false ->
  snd (main df w) <> Ok tt
  /\ dashboard_data (fst (main df w)) = dashboard_data w
  /\ (abs_integer_total (map Raw.quantity df) <= LARGEST_INT64 ->
      snd (main df w) = Err TypeError).
Proof.
  intros Hp. rewrite main_eq.
  destruct (mapM clean_row df) as [cleaned | e0] eqn:Hc.
  2:{ cbn [fst snd dashboard_data]. repeat split; [discriminate |].
      intros Hb.
      destruct (mapM_total clean_row df) as [cleaned Hc'].
      { eapply Forall_impl; [| exact (bounded_quantities_do_not_overflow df Hb)].
        intros r. apply clean_row_succeeds. }
      congruence. }
  apply mapM_Forall2 in Hc as HF.
  pose proof (unpriced_no_amount df cleaned HF Hp) as Hnone.
  destruct (run_queries cleaned) as [a | e1] eqn:Hq.
  2:{ cbn [fst snd dashboard_data]. repeat split; [discriminate |].
      intros Hb.
      destruct (run_queries_summable cleaned (cleaned_summable df cleaned HF Hb))
        as [a Ha].
      congruence. }
  apply run_queries_inv in Hq as Hinv. destruct Hinv as (_ & _ & _ & _ & Hs).
  destruct (summary_query_inv _ _ Hs) as (_ & Hnull).
  pose proof (build_data_outcome a) as Ho.
  destruct (build_data a) as [data | e2].
  - destruct Ho as (t & v & Ht & _).
    assert (Summary.total_revenue (summary a) = None) by now apply Hnull.
    congruence.
  - destruct Ho as [-> _]. cbn [fst snd dashboard_data].
    repeat split. discriminate.
Qed.

Lemma script_fails_without_priced_row_witness :
  snd (main [raw_unpriced] Sample.empty_world) = Err TypeError.
Proof.
  destruct (script_fails_without_priced_row [raw_unpriced] Sample.empty_world
              eq_refl) as (_ & _ & H).
  apply H. vm_compute. discriminate.
Defined.
